(** * Page generation of the blog (gatsby-node): createPages and onCreateNode

    A shallow embedding of the two build hooks of the site.  [createPages]
    asks the content source for the markdown posts, newest first, and
    registers one page per post, each with a reference to its older and its
    newer neighbour.  [onCreateNode] derives the slug of a markdown node and
    stores it as a node field.

    JavaScript values are modelled by the types the hooks really inspect:
    a property that may be [undefined] or [null] is an [option], an array
    is a [list], the derived-fields object of a node is a finite map from
    field names to strings.  The calls to the page registry are recorded, in
    the order they are issued, in the state of a small state-and-exception
    monad. *)

From Stdlib Require Import ZArith Ascii.
From stdpp Require Import base option list gmap strings pretty.

Local Open Scope string_scope.
Local Open Scope list_scope.

(** ** Content nodes as the query returns them *)

(** [frontmatter { title }] *)
Record Frontmatter := mkFrontmatter {
  title : option string
}.

(** [node { fields { slug } frontmatter { title } }].  [fields] is the
    derived-fields object of the node: [None] when the node has none at all
    ([fields: null]), and a map that may or may not bind ["slug"]
    otherwise. *)
Record Node := mkNode {
  fields : option (gmap string string);
  frontmatter : option Frontmatter
}.

(** [edges { node }] *)
Record Edge := mkEdge {
  node : Node
}.

Record Connection := mkConnection {
  edges : list Edge
}.

Record Data := mkData {
  allMarkdownRemark : option Connection
}.

(** What the promise returned by [graphql] resolves to.  [errors] is an
    array when present, and every array is truthy, the empty one too. *)
Record QueryResult := mkQueryResult {
  errors : option (list string);
  data : option Data
}.

(** ** The query *)

Inductive SortOrder := ASC | DESC.

Record Query := mkQuery {
  collection : string;
  sort_fields : list string;
  sort_order : SortOrder;
  limit : nat;
  selection : list (string * list string)
}.

(** ** Pages *)

Record Context := mkContext {
  slug : option string;
  previous : option Node;
  next : option Node
}.

Record Page := mkPage {
  path : option string;
  component : string;
  context : Context
}.

(** ** Effects: registry commands and exceptions *)

Inductive Thrown :=
  | QueryErrors (errs : list string)   (* [throw result.errors] *)
  | TypeError (property : string)      (* property read on null or undefined *)
  | Rejection (reason : string).       (* the graphql promise itself rejected *)

Inductive Completion (A : Type) :=
  | Normal (a : A)
  | Abrupt (e : Thrown).
Arguments Normal {A} a.
Arguments Abrupt {A} e.

(** A computation of the build: it starts from the commands the page
    registry has received so far and ends with a completion and the
    commands received by then. *)
Definition Build (A : Type) : Type := list Page → Completion A * list Page.

#[global] Instance build_ret : MRet Build :=
  λ A (a : A) reg, (Normal a, reg).

#[global] Instance build_bind : MBind Build :=
  λ A B (k : A → Build B) (m : Build A) reg,
    match m reg with
    | (Normal a, reg') => k a reg'
    | (Abrupt e, reg') => (Abrupt e, reg')
    end.

Definition throw {A} (e : Thrown) : Build A := λ reg, (Abrupt e, reg).

(** The bound action creator [createPage]: one register-page command.  The
    registry belongs to the framework; here it records what it is sent. *)
Definition createPage (p : Page) : Build unit :=
  λ reg, (Normal tt, reg ++ [p]).

(** A promise that has settled. *)
Inductive Promise (A : Type) :=
  | Fulfilled (a : A)
  | Rejected (e : Thrown).
Arguments Fulfilled {A} a.
Arguments Rejected {A} e.

(** [p.then(cb)]: the callback runs on fulfilment, a rejection goes through. *)
Definition then_ {A B} (p : Promise A) (cb : A → Build B) : Build B :=
  match p with
  | Fulfilled a => cb a
  | Rejected e => throw e
  end.

(** ** Arrays *)

(** [arr[k]] for an integer [k]: [undefined] outside [0 .. length-1],
    negative indices included. *)
Definition index {A} (arr : list A) (k : Z) : option A :=
  if (k <? 0)%Z then None else arr !! Z.to_nat k.

(** [arr.forEach(cb)]: the callback receives the element, its index and the
    array, for each index in increasing order; an exception ends the loop. *)
Fixpoint forEach_from {A} (cb : A → nat → list A → Build unit)
    (arr : list A) (i : nat) (rest : list A) : Build unit :=
  match rest with
  | [] => mret tt
  | x :: rest' => cb x i arr ;; forEach_from cb arr (S i) rest'
  end.

Definition forEach {A} (cb : A → nat → list A → Build unit)
    (arr : list A) : Build unit :=
  forEach_from cb arr 0 arr.

(** Reading a property of a value that may be null or undefined. *)
Definition get {A} (property : string) (v : option A) : Build A :=
  match v with
  | Some a => mret a
  | None => throw (TypeError property)
  end.

(** ** createPages *)

(** Either an edge of the array or the empty object literal [{}]. *)
Inductive EdgeOrEmpty :=
  | AnEdge (e : Edge)
  | EmptyObject.

(** [v || {}]: an edge is an object, hence truthy. *)
Definition or_empty (v : option Edge) : EdgeOrEmpty :=
  match v with
  | Some e => AnEdge e
  | None => EmptyObject
  end.

(** [const { node: x } = o] *)
Definition node_of (o : EdgeOrEmpty) : option Node :=
  match o with
  | AnEdge e => Some (node e)
  | EmptyObject => None
  end.

(** The query text of the source, parsed. *)
Definition blogQuery : Query :=
  {| collection := "allMarkdownRemark";
     sort_fields := ["frontmatter___date"];
     sort_order := DESC;
     limit := 1000;
     selection := [("fields", ["slug"]); ("frontmatter", ["title"])] |}.

Section GatsbyNode.

(** [path.resolve], which depends on the working directory of the build. *)
Variable path_resolve : string → string.

Definition blogPost : string := path_resolve "./src/templates/blog-post.js".

(** The body of the [forEach] callback.  [post.node.fields.slug] is read
    twice, for the path and for the context; reading [slug] of a [fields]
    that is null throws. *)
Definition createPost (post : Edge) (i : nat) (posts : list Edge)
    : Build unit :=
  let previous := node_of (or_empty (index posts (Z.of_nat i + 1))) in
  let next := node_of (or_empty (index posts (Z.of_nat i - 1))) in
  f ← get "slug" (fields (node post));
  f' ← get "slug" (fields (node post));
  createPage
    {| path := f !! "slug";
       component := blogPost;
       context := {| slug := f' !! "slug";
                     previous := previous;
                     next := next |} |}.

(** The callback given to [then]. *)
Definition onResult (result : QueryResult) : Build unit :=
  match errors result with
  | Some errs => throw (QueryErrors errs)
  | None =>
      d ← get "allMarkdownRemark" (data result);
      c ← get "edges" (allMarkdownRemark d);
      forEach createPost (edges c)
  end.

(** [exports.createPages]; [graphql] is the query function the build
    hands over. *)
Definition createPages (graphql : Query → Promise QueryResult)
    : Build unit :=
  then_ (graphql blogQuery) onResult.

End GatsbyNode.

(** ** onCreateNode *)

Record Internal := mkInternal {
  type : string
}.

(** A node of the content graph as the node hooks see it. *)
Record SourceNode := mkSourceNode {
  id : string;
  parent : option string;
  internal : Internal
}.

(** The argument object of [createNodeField]. *)
Record NodeField := mkNodeField {
  name : string;
  field_node : SourceNode;
  value : string
}.

Section SlugDeriver.

(** The node store of the build: every node with its derived fields.
    It is written through [createNodeField] only. *)
Variable Store : Type.

(** The bound action creator [createNodeField], and [createFilePath] of
    gatsby-source-filesystem, which returns the path or throws, as it does
    for a node that has no file among its ancestors. *)
Variable createNodeField : NodeField → Store → Store.
Variable createFilePath :
  SourceNode → (string → option SourceNode) → Completion string.

(** [exports.onCreateNode]: how the hook completes, and the store it
    leaves.  An exception of [createFilePath] leaves the hook before
    [createNodeField] is called. *)
Definition onCreateNode (node : SourceNode)
    (getNode : string → option SourceNode) (store : Store)
    : Completion unit * Store :=
  if decide (type (internal node) ≠ "MarkdownRemark") then
    (Normal tt, store)
  else
    match createFilePath node getNode with
    | Normal value =>
        (Normal tt,
         createNodeField
           {| name := "slug"; field_node := node; value := value |} store)
    | Abrupt e => (Abrupt e, store)
    end.

End SlugDeriver.

(** ** The content source *)

(** The answer of a query that went through without errors. *)
Definition answer (posts : list Edge) : QueryResult :=
  {| errors := None;
     data := Some {| allMarkdownRemark := Some {| edges := posts |} |} |}.

(** Modelled from the spec: the query capability of the Content Source, which
    is not part of the repository.  It returns the content nodes of the
    queried kind, sorted as the query asks, capped at the count the query
    gives.  [sorted] is the whole set of markdown nodes, already in the
    order of the sort clause; the source answers with its first [limit]
    nodes. *)
Definition contentSource (sorted : list Edge) (q : Query)
    : Promise QueryResult :=
  Fulfilled (answer (take (limit q) sorted)).

(** ** The plan, as the specification words it *)

(** The derived slug of a node, absent when the node has no derived-fields
    object or the object has no slug. *)
Definition slugOf (post : Edge) : option string :=
  fields (node post) ≫= (.!! "slug").

Definition hasFields (post : Edge) : Prop := is_Some (fields (node post)).

Definition carriesSlug (post : Edge) : Prop := is_Some (slugOf post).

(** The entry for the node at position [i]: the route is the slug, previous
    is the node one position later, next the node one position earlier. *)
Definition planEntry (template : string) (posts : list Edge)
    (i : nat) (post : Edge) : Page :=
  {| path := slugOf post;
     component := template;
     context := {| slug := slugOf post;
                   previous := node <$> posts !! S i;
                   next := match i with
                           | 0 => None
                           | S j => node <$> posts !! j
                           end |} |}.

Definition pagePlan (template : string) (posts : list Edge) : list Page :=
  imap (planEntry template posts) posts.

(** ** Sample content *)

Definition post_with (s : string) (t : string) : Edge :=
  {| node := {| fields := Some {[ "slug" := s ]};
                frontmatter := Some {| title := Some t |} |} |}.

(** A node whose derived-fields object is empty. *)
Definition slugless : Edge :=
  {| node := {| fields := Some ∅;
                frontmatter := Some {| title := Some "draft" |} |} |}.

(** A node without a derived-fields object. *)
Definition fieldless : Edge :=
  {| node := {| fields := None;
                frontmatter := Some {| title := Some "stray" |} |} |}.

Definition postC : Edge := post_with "/c/" "C".
Definition postB : Edge := post_with "/b/" "B".
Definition postA : Edge := post_with "/a/" "A".

(** A stand-in for [path.resolve] in the examples; any function will do. *)
Definition sample_resolve (p : string) : string := "/site/" +:+ p.

(** [n] posts with the slugs [/post/n-1/], ..., [/post/0/]. *)
Fixpoint numbered (n : nat) : list Edge :=
  match n with
  | 0 => []
  | S m => post_with ("/post/" +:+ pretty m +:+ "/") "post" :: numbered m
  end.

(** Sample nodes of the content graph, and stand-ins for the node store
    and for [createFilePath] in the examples. *)
Definition fileNode : SourceNode :=
  {| id := "file-1"; parent := None; internal := {| type := "File" |} |}.

Definition markdownNode : SourceNode :=
  {| id := "md-1"; parent := Some "file-1";
     internal := {| type := "MarkdownRemark" |} |}.

Definition sample_getNode (i : string) : option SourceNode :=
  if decide (i = "file-1") then Some fileNode
  else if decide (i = "md-1") then Some markdownNode
  else None.

Definition sample_createFilePath (n : SourceNode)
    (getNode : string → option SourceNode) : Completion string :=
  match parent n ≫= getNode with
  | Some _ => Normal ("/" +:+ id n +:+ "/")
  | None => Abrupt (TypeError "relativePath")
  end.

(** A markdown node whose parent is not in the graph. *)
Definition orphanNode : SourceNode :=
  {| id := "md-2"; parent := Some "gone";
     internal := {| type := "MarkdownRemark" |} |}.

(** Modelled from the spec: the "set derived field" operation of the Node
    Field Store, which is not part of the repository.  The store maps the
    identifier of a node to its derived fields. *)
Definition setNodeField (f : NodeField)
    (store : gmap string (gmap string string))
    : gmap string (gmap string string) :=
  <[ id (field_node f) :=
       <[ name f := value f ]> (default ∅ (store !! id (field_node f))) ]>
    store.

(** The three posts of the specification's scenario, newest first. *)
Definition posts3 : list Edge := [postC; postB; postA].

(** A query function whose answer reports an error. *)
Definition failingQuery (q : Query) : Promise QueryResult :=
  Fulfilled {| errors := Some ["Unknown field `slug`"]; data := None |}.

(** ** The slug deriver over the nodes of a build *)

(** The framework calls the hook once for every node it creates, one after
    the other; here a run ends with the first hook that throws. *)
Fixpoint onCreateNodes (Store : Type)
    (createNodeField : NodeField → Store → Store)
    (createFilePath :
       SourceNode → (string → option SourceNode) → Completion string)
    (getNode : string → option SourceNode)
    (nodes : list SourceNode) (store : Store) : Completion unit * Store :=
  match nodes with
  | [] => (Normal tt, store)
  | n :: rest =>
      match onCreateNode Store createNodeField createFilePath n getNode
              store with
      | (Normal _, store') =>
          onCreateNodes Store createNodeField createFilePath getNode rest
            store'
      | (Abrupt e, store') => (Abrupt e, store')
      end
  end.

(** The node store that only records the [createNodeField] calls. *)
Definition recordField (f : NodeField) (calls : list NodeField)
    : list NodeField :=
  calls ++ [f].

(** An entry with its two neighbour references exchanged. *)
Definition swapLinks (e : Page) : Page :=
  {| path := path e;
     component := component e;
     context := {| slug := slug (context e);
                   previous := next (context e);
                   next := previous (context e) |} |}.

(** An entry with another [next]. *)
Definition withNext (n : option Node) (e : Page) : Page :=
  {| path := path e;
     component := component e;
     context := {| slug := slug (context e);
                   previous := previous (context e);
                   next := n |} |}.

(** ** The index page (pages/index.js) *)

Module Index.

(** JavaScript values as the page meets them: the data of the page query is
    made of objects, arrays, strings and nulls. *)
#[warnings="-register-all"]
Inductive JsValue :=
  | JUndefined
  | JNull
  | JString (s : string)
  | JArray (items : list JsValue)
  | JObject (props : gmap string JsValue).

(** [o === undefined || o === null] *)
Definition nullish (o : JsValue) : bool :=
  match o with
  | JUndefined | JNull => true
  | _ => false
  end.

(** Truthiness: of the values above only undefined, null and the empty
    string are falsy. *)
Definition truthy (o : JsValue) : bool :=
  match o with
  | JUndefined | JNull => false
  | JString s => bool_decide (s ≠ "")
  | JArray _ | JObject _ => true
  end.

(** [s.split(sep)] for a separator of one character.  The result is never
    empty: the empty string splits into one empty piece. *)
Fixpoint split (sep : Ascii.ascii) (s : string) : list string :=
  match s with
  | EmptyString => [""]
  | String c rest =>
      if decide (c = sep) then "" :: split sep rest
      else match split sep rest with
           | [] => [String c ""]
           | piece :: pieces => String c piece :: pieces
           end
  end.

(** Exceptions without other effects. *)
#[global] Instance completion_ret : MRet Completion := λ A (a : A), Normal a.

#[global] Instance completion_bind : MBind Completion :=
  λ A B (k : A → Completion B) (m : Completion A),
    match m with
    | Normal a => k a
    | Abrupt e => Abrupt e
    end.

(** [arr.map(cb)] for a callback that may throw: the elements are visited in
    order and the first exception ends the call. *)
Fixpoint mapArray {A B} (cb : A → Completion B) (arr : list A)
    : Completion (list B) :=
  match arr with
  | [] => mret []
  | x :: rest => y ← cb x; ys ← mapArray cb rest; mret (y :: ys)
  end.

(** What the page shows for one post, and for the whole list. *)
Record Item := mkItem {
  key : JsValue;
  title : JsValue;
  to : JsValue;
  date : JsValue;
  html : JsValue
}.

Record View := mkView {
  helmetTitle : JsValue;
  items : list Item
}.

Section Page.

(** What a property read yields when the value has no own property of that
    name: the properties of the prototype chain, the length and the indices
    of strings and arrays; [undefined] for all other names. *)
Variable inherited : JsValue → string → JsValue.

(** [o[k]] for an [o] that is neither null nor undefined. *)
Definition read (o : JsValue) (k : string) : JsValue :=
  match o with
  | JObject props =>
      match props !! k with
      | Some v => v
      | None => inherited o k
      end
  | _ => inherited o k
  end.

(** [function get(base, path)] *)
Definition get (base : JsValue) (path : string) : JsValue :=
  foldl (λ o k, if nullish o then o else read o k) base (split "."%char path).

(** [o.k] where nothing guards [o]: a type error when [o] is null or
    undefined. *)
Definition member (o : JsValue) (k : string) : Completion JsValue :=
  if nullish o then Abrupt (TypeError k) else Normal (read o k).

(** [a || b], where [b] is evaluated only when [a] is falsy. *)
Definition or_else (a : JsValue) (b : Completion JsValue)
    : Completion JsValue :=
  if truthy a then Normal a else b.

(** [node.fields.slug] *)
Definition fieldsSlug (node : JsValue) : Completion JsValue :=
  f ← member node "fields"; member f "slug".

(** The callback of [posts.map]: the title, then the properties of the
    elements in the order the elements are created. *)
Definition renderPost (edge : JsValue) : Completion Item :=
  node ← member edge "node";
  title ← or_else (get node "frontmatter.title") (fieldsSlug node);
  key ← fieldsSlug node;
  to ← fieldsSlug node;
  fm ← member node "frontmatter";
  date ← member fm "date";
  html ← member node "excerpt";
  mret {| key := key; title := title; to := to; date := date;
          html := html |}.

(** [BlogIndex.render], as far as the data goes.  Calling [map] on a value
    that is not an array is a type error. *)
Definition render (this : JsValue) : Completion View :=
  let siteTitle := get this "props.data.site.siteMetadata.title" in
  let posts := get this "props.data.allMarkdownRemark.edges" in
  items ← match posts with
          | JArray es => mapArray renderPost es
          | _ => Abrupt (TypeError "map")
          end;
  mret {| helmetTitle := siteTitle; items := items |}.

(** An edge the callback can render: the edge, its node, and the fields and
    the frontmatter of the node are neither null nor undefined. *)
Definition wellFormed (edge : JsValue) : Prop :=
  nullish edge = false
  ∧ nullish (read edge "node") = false
  ∧ nullish (read (read edge "node") "fields") = false
  ∧ nullish (read (read edge "node") "frontmatter") = false.

(** The slug of the node of an edge, as the page reads it. *)
Definition slugValue (edge : JsValue) : JsValue :=
  read (read (read edge "node") "fields") "slug".

(** The title of the node of an edge, as the page reads it. *)
Definition titleValue (edge : JsValue) : JsValue :=
  read (read (read edge "node") "frontmatter") "title".

(** What the page shows for a well-formed edge. *)
Definition shown (edge : JsValue) : Item :=
  {| key := slugValue edge;
     title := if truthy (titleValue edge) then titleValue edge
              else slugValue edge;
     to := slugValue edge;
     date := read (read (read edge "node") "frontmatter") "date";
     html := read (read edge "node") "excerpt" |}.

End Page.

(** In the examples nothing is inherited. *)
Definition nothing_inherited (o : JsValue) (k : string) : JsValue :=
  JUndefined.

Definition sample_post (s t d : string) : JsValue :=
  JObject {[ "node" :=
    JObject {[ "excerpt" := JString "...";
               "fields" := JObject {[ "slug" := JString s ]};
               "frontmatter" :=
                 JObject {[ "date" := JString d; "title" := JString t ]} ]} ]}.

(** A post without frontmatter, and one without fields. *)
Definition sample_no_frontmatter : JsValue :=
  JObject {[ "node" :=
    JObject {[ "excerpt" := JString "...";
               "fields" := JObject {[ "slug" := JString "/bare/" ]};
               "frontmatter" := JNull ]} ]}.

Definition sample_no_fields : JsValue :=
  JObject {[ "node" :=
    JObject {[ "excerpt" := JString "...";
               "fields" := JNull;
               "frontmatter" :=
                 JObject {[ "date" := JString "01 January, 2018";
                            "title" := JString "Stray" ]} ]} ]}.

Definition sample_this (es : list JsValue) : JsValue :=
  JObject {[ "props" := JObject {[ "data" := JObject {[
    "site" := JObject {[ "siteMetadata" :=
                JObject {[ "title" := JString "Blog" ]} ]};
    "allMarkdownRemark" := JObject {[ "edges" := JArray es ]} ]} ]} ]}.

End Index.

(** ** The angle of the overflow post (pages/blog/rust-overflow) *)

Module Angles.

(** A [u16] is an integer in [0, 65536). *)
Definition u16 (n : Z) : Prop := (0 ≤ n < 65536)%Z.

(** [u16::wrapping_add] *)
Definition wrapping_add (a b : Z) : Z := ((a + b) mod 65536)%Z.

(** [struct Angle(u16)] *)
Record Angle := mkAngle {
  value : Z
}.

(** [impl Add for Angle] *)
Definition add (self rhs : Angle) : Angle :=
  mkAngle (wrapping_add (value self) (value rhs)).

Definition wf (a : Angle) : Prop := u16 (value a).

End Angles.

(** ** The same posts in the pass and on the index page *)



(** * Properties *)

(** ** Array indexing and the neighbour lookups *)

Lemma index_succ {A} (arr : list A) (i : nat) :
  index arr (Z.of_nat i + 1) = arr !! S i.
Proof.
  unfold index.
  destruct (Z.ltb_spec (Z.of_nat i + 1) 0) as [Hneg|_]; [lia|].
  f_equal. lia.
Qed.

Lemma index_pred {A} (arr : list A) (i : nat) :
  index arr (Z.of_nat i - 1) =
    match i with 0 => None | S j => arr !! j end.
Proof.
  unfold index. destruct i as [|j].
  - reflexivity.
  - destruct (Z.ltb_spec (Z.of_nat (S j) - 1) 0) as [Hneg|_]; [lia|].
    f_equal. lia.
Qed.

Lemma node_of_or_empty (v : option Edge) : node_of (or_empty v) = node <$> v.
Proof. by destruct v. Qed.

Lemma slugOf_fields post f :
  fields (node post) = Some f → slugOf post = f !! "slug".
Proof. unfold slugOf. by intros ->. Qed.

(** ** The loop body and the loop *)

Section Planner.

Variable path_resolve : string → string.

Abbreviation template := (blogPost path_resolve).
Abbreviation createPost := (createPost path_resolve).
Abbreviation createPages := (createPages path_resolve).
Abbreviation onResult := (onResult path_resolve).

Lemma createPost_fields post i posts reg :
  hasFields post →
  createPost post i posts reg
  = (Normal tt, reg ++ [planEntry template posts i post]).
Proof.
  intros [f Hf]. unfold createPost, planEntry, mbind, build_bind.
  rewrite Hf, (slugOf_fields _ _ Hf). simpl. unfold createPage.
  by rewrite index_succ, index_pred, !node_of_or_empty; destruct i.
Qed.

Lemma createPost_fieldless post i posts reg :
  fields (node post) = None →
  createPost post i posts reg = (Abrupt (TypeError "slug"), reg).
Proof.
  intros Hf. unfold createPost, mbind, build_bind. by rewrite Hf.
Qed.

Lemma forEach_from_good posts rest : ∀ i reg,
  Forall hasFields rest →
  forEach_from createPost posts i rest reg
  = (Normal tt,
     reg ++ imap (λ j, planEntry template posts (i + j)) rest).
Proof.
  induction rest as [|post rest IH]; intros i reg Hall.
  - simpl. by rewrite app_nil_r.
  - inversion Hall as [|? ? Hpost Hrest]; subst.
    simpl. unfold mbind, build_bind at 1.
    rewrite (createPost_fields _ _ _ _ Hpost), (IH (S i) _ Hrest).
    rewrite <- app_assoc, Nat.add_0_r. simpl. do 3 f_equal.
    apply imap_ext. intros j x _. simpl. f_equal. lia.
Qed.

Lemma forEach_from_bad posts good bad tail : ∀ i reg,
  Forall hasFields good →
  fields (node bad) = None →
  forEach_from createPost posts i (good ++ bad :: tail) reg
  = (Abrupt (TypeError "slug"),
     reg ++ imap (λ j, planEntry template posts (i + j)) good).
Proof.
  induction good as [|post good IH]; intros i reg Hall Hbad.
  - simpl. unfold mbind, build_bind.
    by rewrite (createPost_fieldless _ _ _ _ Hbad), app_nil_r.
  - inversion Hall as [|? ? Hpost Hgood]; subst.
    simpl. unfold mbind, build_bind at 1.
    rewrite (createPost_fields _ _ _ _ Hpost), (IH (S i) _ Hgood Hbad).
    rewrite <- app_assoc, Nat.add_0_r. simpl. do 3 f_equal.
    apply imap_ext. intros j x _. simpl. f_equal. lia.
Qed.

(** Either every node has a derived-fields object, or there is a first
    one without. *)
Lemma first_fieldless (posts : list Edge) :
  Forall hasFields posts ∨
  ∃ good bad tail, posts = good ++ bad :: tail ∧
    Forall hasFields good ∧ fields (node bad) = None.
Proof.
  induction posts as [|post posts IH].
  - left. constructor.
  - destruct (fields (node post)) as [f|] eqn:Hf.
    + destruct IH as [Hall|(good & bad & tail & -> & Hgood & Hbad)].
      * left. constructor; [by exists f | done].
      * right. exists (post :: good), bad, tail.
        split; [done|]. split; [|done].
        constructor; [by exists f | done].
    + right. by exists [], post, posts.
Qed.

Lemma forEach_createPost_good posts reg :
  Forall hasFields posts →
  forEach createPost posts reg
  = (Normal tt, reg ++ pagePlan template posts).
Proof. intros Hall. unfold forEach. by rewrite forEach_from_good. Qed.

Lemma forEach_createPost_bad good bad tail reg :
  Forall hasFields good →
  fields (node bad) = None →
  forEach createPost (good ++ bad :: tail) reg
  = (Abrupt (TypeError "slug"),
     reg ++ take (length good)
              (pagePlan template (good ++ bad :: tail))).
Proof.
  intros Hall Hbad. unfold forEach, pagePlan.
  rewrite forEach_from_bad by done.
  rewrite imap_app, take_app_length'; [done|].
  by rewrite length_imap.
Qed.

Lemma createPages_answer graphql posts reg :
  graphql blogQuery = Fulfilled (answer posts) →
  createPages graphql reg = forEach createPost posts reg.
Proof. intros Hq. unfold createPages. by rewrite Hq. Qed.

Lemma createPages_good graphql posts reg :
  graphql blogQuery = Fulfilled (answer posts) →
  Forall hasFields posts →
  createPages graphql reg = (Normal tt, reg ++ pagePlan template posts).
Proof.
  intros Hq Hall.
  by rewrite (createPages_answer _ _ _ Hq), forEach_createPost_good.
Qed.

Lemma createPages_bad graphql good bad tail reg :
  graphql blogQuery = Fulfilled (answer (good ++ bad :: tail)) →
  Forall hasFields good →
  fields (node bad) = None →
  createPages graphql reg
  = (Abrupt (TypeError "slug"),
     reg ++ take (length good)
              (pagePlan template (good ++ bad :: tail))).
Proof.
  intros Hq Hall Hbad.
  by rewrite (createPages_answer _ _ _ Hq), forEach_createPost_bad.
Qed.

(** What a pass over [posts] issues is always a prefix of the plan, the
    same whatever the registry held before.  The prefix stops at the
    first node without a derived-fields object: it covers position [i] as
    soon as the nodes up to [i] all have one. *)
Lemma createPages_prefix graphql posts :
  graphql blogQuery = Fulfilled (answer posts) →
  ∃ out k,
    (∀ reg, createPages graphql reg
            = (out, reg ++ take k (pagePlan template posts)))
    ∧ (k ≤ length posts)%nat
    ∧ Forall hasFields (take k posts)
    ∧ (∀ i, (i < length posts)%nat →
         Forall hasFields (take (S i) posts) → (i < k)%nat)
    ∧ (out = Normal tt ∧ k = length posts
       ∨ out = Abrupt (TypeError "slug")
         ∧ ∃ bad, posts !! k = Some bad ∧ fields (node bad) = None).
Proof.
  intros Hq.
  destruct (first_fieldless posts)
    as [Hall|(good & bad & tail & -> & Hgood & Hbad)].
  - exists (Normal tt), (length posts).
    split; [|split; [done|split; [by rewrite firstn_all|split]]].
    + intros reg. rewrite (createPages_good _ _ _ Hq Hall).
      rewrite take_ge; [done|]. unfold pagePlan. by rewrite length_imap.
    + by intros.
    + by left.
  - exists (Abrupt (TypeError "slug")), (length good).
    split; [|split; [|split; [|split]]].
    + intros reg. by rewrite (createPages_bad _ _ _ _ _ Hq Hgood Hbad).
    + rewrite length_app. lia.
    + by rewrite take_app_length.
    + intros i _ Hpre.
      destruct (decide (i < length good)%nat) as [|Hge]; [done|]. exfalso.
      assert (take (S i) (good ++ bad :: tail) !! length good = Some bad)
        as Hlook.
      { rewrite lookup_take_lt by lia. by rewrite list_lookup_middle. }
      destruct (proj1 (Forall_lookup _ _) Hpre _ _ Hlook) as [f Hf].
      congruence.
    + right. split; [done|]. exists bad.
      by rewrite list_lookup_middle.
Qed.

(** An entry of a prefix of the plan is the plan entry of the node at the
    same position. *)
Lemma plan_prefix_lookup posts k i e :
  take k (pagePlan template posts) !! i = Some e →
  ∃ post, posts !! i = Some post ∧ (i < k)%nat
          ∧ e = planEntry template posts i post.
Proof.
  intros Hlook. apply lookup_take_Some in Hlook as [Hlook Hik].
  unfold pagePlan in Hlook. rewrite list_lookup_imap in Hlook.
  destruct (posts !! i) as [post|]; [|done].
  exists post. simpl in Hlook. by inversion Hlook.
Qed.

(** ** Neighbour references *)

(** C1: whatever sequence the query answers with, the pass issues entries
    such that the entry at position [i] has as previous the node at
    position [i + 1] when there is one and nothing otherwise, and as next
    the node at position [i - 1] when there is one and nothing otherwise.
    The entry at position 0 has no next, the one at the last position has
    no previous, every entry strictly between has both.  The entry at
    position [i] is issued as soon as the nodes up to [i] have their
    derived-fields object. *)
Theorem createPages_neighbours graphql posts reg :
  graphql blogQuery = Fulfilled (answer posts) →
  ∃ out ps,
    createPages graphql reg = (out, reg ++ ps)
    ∧ (∀ i, (i < length posts)%nat →
         Forall hasFields (take (S i) posts) → is_Some (ps !! i))
    ∧ (∀ i e, ps !! i = Some e →
         previous (context e) = node <$> posts !! (i + 1)%nat
         ∧ next (context e)
           = (if decide (i = 0%nat) then None
              else node <$> posts !! (i - 1)%nat)
         ∧ (i = 0%nat → next (context e) = None)
         ∧ (i = (length posts - 1)%nat → previous (context e) = None)
         ∧ ((0 < i < length posts - 1)%nat →
              is_Some (previous (context e))
              ∧ is_Some (next (context e)))).
Proof.
  intros Hq.
  destruct (createPages_prefix _ _ Hq) as (out & k & Hrun & Hk & _ & Hcov & _).
  exists out, (take k (pagePlan template posts)).
  split; [apply Hrun|]. split.
  - intros i Hi Hpre. apply lookup_lt_is_Some.
    rewrite length_take. unfold pagePlan. rewrite length_imap.
    specialize (Hcov i Hi Hpre). lia.
  - intros i e Hlook.
    apply plan_prefix_lookup in Hlook as (post & Hpost & _ & ->).
    simpl. rewrite Nat.add_1_r.
    assert (next_at : (match i with
                       | 0%nat => None
                       | S j => node <$> posts !! j
                       end)
                      = (if decide (i = 0%nat) then None
                         else node <$> posts !! (i - 1)%nat)).
    { destruct i as [|j]; [done|]. simpl. by rewrite Nat.sub_0_r. }
    rewrite next_at. split; [done|]. split; [done|].
    split; [by intros ->|]. split.
    + intros ->. apply lookup_lt_Some in Hpost.
      rewrite (lookup_ge_None_2 posts); [done|]. lia.
    + intros [Hlo Hhi]. split.
      * destruct (lookup_lt_is_Some_2 posts (S i)) as [p ->]; [lia|].
        by eexists.
      * destruct (decide (i = 0%nat)) as [->|_]; [lia|].
        destruct (lookup_lt_is_Some_2 posts (i - 1)%nat) as [p ->]; [lia|].
        by eexists.
Qed.

(** C9: neighbour links agree with each other.  For two adjacent
    positions [i] and [i + 1] of the input, the entry at [i] has the node
    at [i + 1] as previous and the entry at [i + 1] has the node at [i] as
    next, so previous followed by next leads back to the node the walk
    started from.  Both entries are issued when the nodes carry their
    derived-fields object. *)
Theorem createPages_links_agree graphql posts reg :
  graphql blogQuery = Fulfilled (answer posts) →
  ∃ out ps,
    createPages graphql reg = (out, reg ++ ps)
    ∧ ∀ i post older,
        posts !! i = Some post →
        posts !! (i + 1)%nat = Some older →
        (∀ e, ps !! i = Some e → previous (context e) = Some (node older))
        ∧ (∀ e', ps !! (i + 1)%nat = Some e' →
             next (context e') = Some (node post))
        ∧ (Forall hasFields posts →
             is_Some (ps !! i) ∧ is_Some (ps !! (i + 1)%nat)).
Proof.
  intros Hq.
  destruct (createPages_prefix _ _ Hq) as (out & k & Hrun & Hk & _ & Hcov & _).
  exists out, (take k (pagePlan template posts)).
  split; [apply Hrun|].
  intros i post older Hpost Holder. split; [|split].
  - intros e Hlook.
    apply plan_prefix_lookup in Hlook as (p & _ & _ & ->).
    simpl. rewrite Nat.add_1_r in Holder. by rewrite Holder.
  - intros e' Hlook.
    apply plan_prefix_lookup in Hlook as (p & _ & _ & ->).
    rewrite Nat.add_1_r. simpl. by rewrite Hpost.
  - intros Hall.
    assert (∀ j, (j < length posts)%nat →
              is_Some (take k (pagePlan template posts) !! j)) as Hsome.
    { intros j Hj. apply lookup_lt_is_Some.
      rewrite length_take. unfold pagePlan. rewrite length_imap.
      assert (j < k)%nat; [|lia].
      apply Hcov; [done|]. by apply Forall_take. }
    split; apply Hsome; by eapply lookup_lt_Some.
Qed.

(** ** Routes and contexts *)

(** C7: every entry the pass issues belongs to the node at the same
    position; its route path is the slug read from that node's
    derived-fields object, unchanged, its context carries the same slug
    and the two optional neighbour references, and its component is the
    blog-post template.  The entry at position [i] is issued as soon as the
    nodes up to [i] have their derived-fields object, so for an answer
    whose nodes all have one there is such an entry for every node. *)
Theorem createPages_route_is_slug graphql posts reg :
  graphql blogQuery = Fulfilled (answer posts) →
  ∃ out ps,
    createPages graphql reg = (out, reg ++ ps)
    ∧ (∀ i, (i < length posts)%nat →
         Forall hasFields (take (S i) posts) → is_Some (ps !! i))
    ∧ (Forall hasFields posts → out = Normal tt ∧ length ps = length posts)
    ∧ ∀ i e, ps !! i = Some e →
        ∃ post f,
          posts !! i = Some post
          ∧ fields (node post) = Some f
          ∧ path e = f !! "slug"
          ∧ component e = template
          ∧ context e
            = {| slug := f !! "slug";
                 previous := node <$> posts !! (i + 1)%nat;
                 next := if decide (i = 0%nat) then None
                         else node <$> posts !! (i - 1)%nat |}.
Proof.
  intros Hq.
  destruct (createPages_prefix _ _ Hq)
    as (out & k & Hrun & Hk & Hpre & Hcov & Hout).
  exists out, (take k (pagePlan template posts)).
  split; [apply Hrun|].
  assert (length (take k (pagePlan template posts)) = k) as Hlen.
  { rewrite length_take. unfold pagePlan. rewrite length_imap. lia. }
  split.
  { intros i Hi Hfields. apply lookup_lt_is_Some. rewrite Hlen.
    by apply Hcov. }
  split.
  { intros Hall. rewrite Hlen.
    destruct Hout as [[-> ->]|[_ (bad & Hbad & Hnone)]]; [done|].
    destruct (proj1 (Forall_lookup _ _) Hall _ _ Hbad) as [f Hf].
    congruence. }
  intros i e Hlook.
  apply plan_prefix_lookup in Hlook as (post & Hpost & Hik & ->).
  assert (take k posts !! i = Some post) as Htake
    by by rewrite lookup_take_lt.
  destruct (proj1 (Forall_lookup _ _) Hpre _ _ Htake) as [f Hf].
  exists post, f. simpl. rewrite (slugOf_fields _ _ Hf), Nat.add_1_r.
  do 4 (split; [done|]). f_equal.
  destruct i as [|j]; [done|]. simpl. by rewrite Nat.sub_0_r.
Qed.

(** ** One entry per node *)

(** C3: when every node of the answer carries a slug, the pass completes
    and issues exactly one entry per node, in the order of the nodes: the
    entry at each position is the plan entry of the node at that
    position, and there are as many entries as nodes.  For the empty
    answer nothing is issued and the pass completes. *)
Theorem createPages_one_entry_per_node graphql posts reg :
  graphql blogQuery = Fulfilled (answer posts) →
  Forall carriesSlug posts →
  ∃ ps,
    createPages graphql reg = (Normal tt, reg ++ ps)
    ∧ length ps = length posts
    ∧ (∀ i, ps !! i = planEntry template posts i <$> posts !! i)
    ∧ (∀ i e, ps !! i = Some e →
         ∃ post, posts !! i = Some post ∧ path e = slugOf post
                 ∧ is_Some (path e))
    ∧ (posts = [] → createPages graphql reg = (Normal tt, reg)).
Proof.
  intros Hq Hslug.
  assert (Forall hasFields posts) as Hall.
  { eapply Forall_impl; [exact Hslug|].
    intros post [s Hs]. unfold slugOf in Hs. unfold hasFields.
    destruct (fields (node post)); [by eexists|done]. }
  exists (pagePlan template posts).
  split; [by apply createPages_good|].
  split; [unfold pagePlan; by rewrite length_imap|].
  split; [intros i; unfold pagePlan; by rewrite list_lookup_imap|].
  split.
  - intros i e Hlook. unfold pagePlan in Hlook.
    rewrite list_lookup_imap in Hlook.
    destruct (posts !! i) as [post|] eqn:Hpost; [|done].
    exists post. simpl in Hlook. inversion Hlook; subst; simpl.
    split; [done|]. split; [done|].
    exact (proj1 (Forall_lookup _ _) Hslug _ _ Hpost).
  - intros ->. rewrite (createPages_good _ _ _ Hq Hall).
    by rewrite app_nil_r.
Qed.

(** ** Nodes without a slug *)

(** C2, as amended: the pass does not check slugs.  When every node has a
    derived-fields object, it completes with one entry per node, and the
    entry of a node whose object has no slug has neither a route path nor
    a context slug.  When some node has no derived-fields object at all,
    the pass stops with a type error at the first such node: the entries
    of the nodes before it have been issued by then, and no other. *)
Theorem createPages_missing_slug graphql posts reg :
  graphql blogQuery = Fulfilled (answer posts) →
  (Forall hasFields posts →
     ∃ ps, createPages graphql reg = (Normal tt, reg ++ ps)
           ∧ length ps = length posts
           ∧ ∀ i post, posts !! i = Some post → slugOf post = None →
               ∃ e, ps !! i = Some e ∧ path e = None
                    ∧ slug (context e) = None)
  ∧ (∀ good bad tail,
       posts = good ++ bad :: tail →
       Forall hasFields good →
       fields (node bad) = None →
       ∃ ps, createPages graphql reg
             = (Abrupt (TypeError "slug"), reg ++ ps)
             ∧ length ps = length good
             ∧ ∀ i e, ps !! i = Some e →
                 ∃ post, good !! i = Some post ∧ path e = slugOf post).
Proof.
  intros Hq. split.
  - intros Hall. exists (pagePlan template posts).
    split; [by apply createPages_good|].
    split; [unfold pagePlan; by rewrite length_imap|].
    intros i post Hpost Hnone.
    exists (planEntry template posts i post).
    unfold pagePlan. rewrite list_lookup_imap, Hpost. simpl.
    by rewrite Hnone.
  - intros good bad tail -> Hgood Hbad.
    exists (take (length good)
              (pagePlan template (good ++ bad :: tail))).
    split; [by apply createPages_bad|]. split.
    + rewrite length_take. unfold pagePlan.
      rewrite length_imap, length_app. lia.
    + intros i e Hlook.
      apply plan_prefix_lookup in Hlook as (post & Hpost & Hi & ->).
      exists post. rewrite lookup_app_l in Hpost by done. by split.
Qed.

(** ** Query failure *)

Lemma onResult_errors result errs reg :
  errors result = Some errs →
  onResult result reg = (Abrupt (QueryErrors errs), reg).
Proof. intros Herr. unfold onResult. by rewrite Herr. Qed.

(** C4: when the answer of the query has its [errors] set, the pass
    throws them at once: the promise it returns is rejected with these
    errors and the page registry is as it was, no page having been
    registered. *)
Theorem createPages_query_errors graphql result errs reg :
  graphql blogQuery = Fulfilled result →
  errors result = Some errs →
  createPages graphql reg = (Abrupt (QueryErrors errs), reg).
Proof.
  intros Hq Herr. unfold createPages. rewrite Hq. simpl.
  by apply onResult_errors.
Qed.

(** A rejection of the query promise goes through in the same way. *)
Lemma createPages_query_rejected graphql e reg :
  graphql blogQuery = Rejected e →
  createPages graphql reg = (Abrupt e, reg).
Proof. intros Hq. unfold createPages. by rewrite Hq. Qed.

(** ** Repeated passes *)

(** Every answer without errors and with its data in place is the answer
    for some sequence of edges. *)
Lemma answer_of_result result d c :
  errors result = None →
  data result = Some d →
  allMarkdownRemark d = Some c →
  result = answer (edges c).
Proof.
  destruct result as [errs dat], d as [conn], c as [es]. simpl.
  by intros -> -> ->.
Qed.

(** C8: the pass is a function of the answer of the query alone.  It ends
    in the same way and issues the same entries, in the same order,
    whatever the registry held before; so a second pass, run after a
    first one, issues once more exactly the entries of the first. *)
Theorem createPages_deterministic graphql :
  ∃ out ps,
    (∀ reg, createPages graphql reg = (out, reg ++ ps))
    ∧ (∀ reg, createPages graphql (createPages graphql reg).2
              = (out, (reg ++ ps) ++ ps)).
Proof.
  assert (∃ out ps, ∀ reg, createPages graphql reg = (out, reg ++ ps))
    as (out & ps & Hrun).
  { destruct (graphql blogQuery) as [result|e] eqn:Hq.
    - destruct (errors result) as [errs|] eqn:Herr.
      { exists (Abrupt (QueryErrors errs)), []. intros reg.
        unfold createPages. rewrite Hq. simpl.
        by rewrite app_nil_r, (onResult_errors _ _ _ Herr). }
      destruct (data result) as [d|] eqn:Hd.
      2:{ exists (Abrupt (TypeError "allMarkdownRemark")), []. intros reg.
          unfold createPages, onResult. rewrite Hq. simpl.
          by rewrite Herr, Hd, app_nil_r. }
      destruct (allMarkdownRemark d) as [c|] eqn:Hc.
      2:{ exists (Abrupt (TypeError "edges")), []. intros reg.
          unfold createPages, onResult. rewrite Hq. simpl.
          rewrite Herr, Hd, app_nil_r. unfold get, mbind, build_bind.
          simpl. by rewrite Hc. }
      rewrite (answer_of_result _ _ _ Herr Hd Hc) in Hq.
      destruct (createPages_prefix _ _ Hq) as (out & k & Hrun & _).
      by exists out, (take k (pagePlan template (edges c))).
    - exists (Abrupt e), []. intros reg.
      by rewrite app_nil_r, (createPages_query_rejected _ _ _ Hq). }
  exists out, ps. split; [done|].
  intros reg. by rewrite (Hrun reg), Hrun.
Qed.

(** ** Totality of the neighbour lookups *)

(** C10, as amended: the lookups of the two neighbours never fail.  An
    index outside the array, position -1 and position [length posts] among
    them, yields no edge and hence an absent neighbour; so the first entry
    of a pass has no next and the entry of the last node no previous.  The
    pass over any answer ends normally or with the type error of reading
    the slug of a node that has no derived-fields object, never with an
    error of a lookup.  For a single node with its derived-fields object,
    the pass completes with the one entry, whose previous and next are both
    absent; for a single node without one, the pass ends with that type
    error and issues no entry. *)
Theorem neighbour_lookups_total graphql posts reg :
  graphql blogQuery = Fulfilled (answer posts) →
  (∀ k : Z, (k < 0 ∨ Z.of_nat (length posts) ≤ k)%Z →
     index posts k = None ∧ node_of (or_empty (index posts k)) = None)
  ∧ (∃ out ps,
       createPages graphql reg = (out, reg ++ ps)
       ∧ (out = Normal tt
          ∨ out = Abrupt (TypeError "slug")
            ∧ ∃ bad, bad ∈ posts ∧ fields (node bad) = None)
       ∧ (∀ e, ps !! 0%nat = Some e → next (context e) = None)
       ∧ (∀ e, ps !! (length posts - 1)%nat = Some e →
            previous (context e) = None))
  ∧ (∀ post, posts = [post] → hasFields post →
       ∃ e, createPages graphql reg = (Normal tt, reg ++ [e])
            ∧ previous (context e) = None
            ∧ next (context e) = None)
  ∧ (∀ post, posts = [post] → fields (node post) = None →
       createPages graphql reg = (Abrupt (TypeError "slug"), reg)).
Proof.
  intros Hq. split; [|split; [|split]].
  - intros k Hk.
    assert (index posts k = None) as ->; [|done].
    unfold index. destruct (Z.ltb_spec k 0) as [|Hpos]; [done|].
    apply lookup_ge_None_2. lia.
  - destruct (createPages_prefix _ _ Hq)
      as (out & k & Hrun & _ & _ & _ & Hout).
    exists out, (take k (pagePlan template posts)).
    split; [apply Hrun|]. split; [|split].
    + destruct Hout as [[-> _]|[-> (bad & Hbad & Hnone)]]; [by left|].
      right. split; [done|]. exists bad. split; [|done].
      by eapply list_elem_of_lookup_2.
    + intros e Hlook.
      by apply plan_prefix_lookup in Hlook as (post & _ & _ & ->).
    + intros e Hlook.
      apply plan_prefix_lookup in Hlook as (post & Hpost & _ & ->).
      apply lookup_lt_Some in Hpost. simpl.
      rewrite (lookup_ge_None_2 posts); [done|]. lia.
  - intros post -> Hpost.
    exists (planEntry template [post] 0 post). split; [|done].
    rewrite (createPages_good _ _ _ Hq); [done|].
    by constructor.
  - intros post -> Hnone.
    rewrite (createPages_bad _ [] post [] _ Hq); [|constructor|done].
    simpl. by rewrite app_nil_r.
Qed.

(** ** The bound on the number of nodes *)

Lemma contentSource_blogQuery sorted :
  contentSource sorted blogQuery = Fulfilled (answer (take 1000 sorted)).
Proof. reflexivity. Qed.

Lemma createPages_capped graphql sorted reg :
  graphql blogQuery = Fulfilled (answer (take (limit blogQuery) sorted)) →
  Forall hasFields sorted →
  createPages graphql reg
  = (Normal tt, reg ++ pagePlan template (take 1000 sorted)).
Proof.
  intros Hq Hall. apply createPages_good; [exact Hq|]. by apply Forall_take.
Qed.

(** C5, as amended: the query of the pass asks for at most 1000 nodes, a
    number written in the query and not an option of the pass.  Against a
    content source that answers with the first [limit] markdown nodes in
    sort order, the pass completes and issues the plan of the first 1000
    nodes: as many entries as nodes up to 1000, exactly 1000 for any larger
    set, the entry at each position being that of the node at the same
    position in sort order. *)
Theorem createPages_first_thousand graphql sorted reg :
  graphql blogQuery = Fulfilled (answer (take (limit blogQuery) sorted)) →
  Forall hasFields sorted →
  limit blogQuery = 1000%nat
  ∧ ∃ ps,
      createPages graphql reg = (Normal tt, reg ++ ps)
      ∧ ps = pagePlan template (take 1000 sorted)
      ∧ length ps = (1000 `min` length sorted)%nat
      ∧ ((1000 < length sorted)%nat → length ps = 1000%nat)
      ∧ ∀ i e, ps !! i = Some e →
          (i < 1000)%nat
          ∧ ∃ post, sorted !! i = Some post ∧ path e = slugOf post.
Proof.
  intros Hq Hall. split; [done|].
  exists (pagePlan template (take 1000 sorted)).
  split; [by apply createPages_capped|]. split; [done|].
  assert (length (pagePlan template (take 1000 sorted))
          = (1000 `min` length sorted)%nat) as Hlen.
  { unfold pagePlan. by rewrite length_imap, length_take. }
  split; [done|]. split; [lia|].
  intros i e Hlook. unfold pagePlan in Hlook.
  rewrite list_lookup_imap in Hlook.
  destruct (take 1000 sorted !! i) as [post|] eqn:Hpost; [|done].
  apply lookup_take_Some in Hpost as [Hpost Hi].
  split; [done|]. exists post. split; [done|].
  simpl in Hlook. by inversion Hlook.
Qed.

End Planner.

(** ** The slug deriver *)

Section SlugDeriverProperties.

Variable Store : Type.
Variable createNodeField : NodeField → Store → Store.
Variable createFilePath :
  SourceNode → (string → option SourceNode) → Completion string.

(** A markdown node gets its slug through one [createNodeField]. *)
Lemma onCreateNode_markdown node getNode store path :
  type (internal node) = "MarkdownRemark" →
  createFilePath node getNode = Normal path →
  onCreateNode Store createNodeField createFilePath node getNode store
  = (Normal tt,
     createNodeField
       {| name := "slug"; field_node := node; value := path |} store).
Proof.
  intros Hty Hpath. unfold onCreateNode.
  destruct (decide (type (internal node) ≠ "MarkdownRemark")); [done|].
  by rewrite Hpath.
Qed.

Lemma onCreateNode_skips node getNode store :
  type (internal node) ≠ "MarkdownRemark" →
  onCreateNode Store createNodeField createFilePath node getNode store
  = (Normal tt, store).
Proof.
  intros Hty. unfold onCreateNode.
  by destruct (decide (type (internal node) ≠ "MarkdownRemark")).
Qed.

(** An exception of [createFilePath] is the exception of the hook, and the
    store is as it was. *)
Lemma onCreateNode_throws node getNode store e :
  type (internal node) = "MarkdownRemark" →
  createFilePath node getNode = Abrupt e →
  onCreateNode Store createNodeField createFilePath node getNode store
  = (Abrupt e, store).
Proof.
  intros Hty Hpath. unfold onCreateNode.
  destruct (decide (type (internal node) ≠ "MarkdownRemark")); [done|].
  by rewrite Hpath.
Qed.

(** C6: for a node of any kind other than the markdown kind the hook does
    nothing.  It completes without an error, and the node store, which
    holds every node with its derived fields, is after the hook what it was
    before, whatever [createNodeField] would do to it; [createNodeField] is
    not called. *)
Theorem onCreateNode_other_kind node getNode store :
  type (internal node) ≠ "MarkdownRemark" →
  onCreateNode Store createNodeField createFilePath node getNode store
  = (Normal tt, store)
  ∧ onCreateNode (list NodeField) (λ field calls, calls ++ [field])
      createFilePath node getNode []
    = (Normal tt, []).
Proof.
  intros Hty. unfold onCreateNode.
  by destruct (decide (type (internal node) ≠ "MarkdownRemark")).
Qed.

End SlugDeriverProperties.

(** * Concrete runs *)

(** The three posts C, B, A of the specification's scenario, newest first. *)
Example createPages_three_posts :
  createPages sample_resolve (contentSource [postC; postB; postA]) []
  = (Normal tt,
     [ {| path := Some "/c/"; component := blogPost sample_resolve;
          context := {| slug := Some "/c/";
                        previous := Some (node postB);
                        next := None |} |};
       {| path := Some "/b/"; component := blogPost sample_resolve;
          context := {| slug := Some "/b/";
                        previous := Some (node postA);
                        next := Some (node postC) |} |};
       {| path := Some "/a/"; component := blogPost sample_resolve;
          context := {| slug := Some "/a/";
                        previous := None;
                        next := Some (node postB) |} |} ]).
Proof. reflexivity. Qed.

Example onCreateNode_markdown_node :
  onCreateNode _ setNodeField sample_createFilePath markdownNode
    sample_getNode ∅
  = (Normal tt, {[ "md-1" := {[ "slug" := "/md-1/" ]} ]}).
Proof. reflexivity. Qed.

Example onCreateNode_orphan_node :
  onCreateNode _ setNodeField sample_createFilePath orphanNode
    sample_getNode ∅
  = (Abrupt (TypeError "relativePath"), ∅).
Proof. reflexivity. Qed.

Lemma numbered_length n : length (numbered n) = n.
Proof. induction n as [|n IH]; simpl; [done|]. by rewrite IH. Qed.

Lemma numbered_hasFields n : Forall hasFields (numbered n).
Proof.
  induction n as [|n IH]; simpl; constructor; [|done].
  unfold hasFields. simpl. by eexists.
Qed.

Lemma numbered_carriesSlug n : Forall carriesSlug (numbered n).
Proof.
  induction n as [|n IH]; simpl; constructor; [|done].
  unfold carriesSlug, slugOf. simpl. rewrite lookup_singleton_eq. by eexists.
Qed.

(** The pass depends on the query function through its answer to
    [blogQuery] only. *)
Lemma createPages_query_fixed path_resolve g1 g2 :
  g1 blogQuery = g2 blogQuery →
  createPages path_resolve g1 = createPages path_resolve g2.
Proof. intros Heq. unfold createPages. by rewrite Heq. Qed.

(** * The theorems at concrete inputs *)

Lemma createPages_neighbours_witness :
  contentSource posts3 blogQuery = Fulfilled (answer posts3)
  ∧ ∃ out ps,
      createPages sample_resolve (contentSource posts3) [] = (out, [] ++ ps)
      ∧ ∀ i e, ps !! i = Some e →
          previous (context e) = node <$> posts3 !! (i + 1)%nat
          ∧ next (context e)
            = (if decide (i = 0%nat) then None
               else node <$> posts3 !! (i - 1)%nat).
Proof.
  split; [reflexivity|].
  destruct (createPages_neighbours sample_resolve (contentSource posts3)
              posts3 [] eq_refl) as (out & ps & Hrun & _ & Hent).
  exists out, ps. split; [exact Hrun|].
  intros i e Hlook. destruct (Hent i e Hlook) as (Hprev & Hnext & _).
  exact (conj Hprev Hnext).
Defined.

Lemma createPages_links_agree_witness :
  contentSource posts3 blogQuery = Fulfilled (answer posts3)
  ∧ ∃ out ps,
      createPages sample_resolve (contentSource posts3) [] = (out, [] ++ ps)
      ∧ (∀ e, ps !! 1%nat = Some e →
           previous (context e) = Some (node postA))
      ∧ (∀ e', ps !! 2%nat = Some e' → next (context e') = Some (node postB)).
Proof.
  split; [reflexivity|].
  destruct (createPages_links_agree sample_resolve (contentSource posts3)
              posts3 [] eq_refl) as (out & ps & Hrun & Hlinks).
  exists out, ps. split; [exact Hrun|].
  destruct (Hlinks 1%nat postB postA eq_refl eq_refl) as (Hprev & Hnext & _).
  exact (conj Hprev Hnext).
Defined.

Lemma createPages_route_is_slug_witness :
  contentSource posts3 blogQuery = Fulfilled (answer posts3)
  ∧ ∃ out ps,
      createPages sample_resolve (contentSource posts3) [] = (out, [] ++ ps)
      ∧ (∀ i, (i < length posts3)%nat →
           Forall hasFields (take (S i) posts3) → is_Some (ps !! i))
      ∧ ∀ i e, ps !! i = Some e →
          ∃ post f, posts3 !! i = Some post
                    ∧ fields (node post) = Some f
                    ∧ path e = f !! "slug".
Proof.
  split; [reflexivity|].
  destruct (createPages_route_is_slug sample_resolve (contentSource posts3)
              posts3 [] eq_refl) as (out & ps & Hrun & Hsome & _ & Hent).
  exists out, ps. split; [exact Hrun|]. split; [exact Hsome|].
  intros i e Hlook.
  destruct (Hent i e Hlook) as (post & f & Hpost & Hf & Hpath & _).
  exists post, f. exact (conj Hpost (conj Hf Hpath)).
Defined.

Lemma posts3_carry_slugs : Forall carriesSlug posts3.
Proof. repeat (constructor; [by eexists|]). constructor. Qed.

Lemma createPages_one_entry_per_node_witness :
  contentSource posts3 blogQuery = Fulfilled (answer posts3)
  ∧ Forall carriesSlug posts3
  ∧ ∃ ps,
      createPages sample_resolve (contentSource posts3) []
      = (Normal tt, [] ++ ps)
      ∧ length ps = 3%nat.
Proof.
  split; [reflexivity|]. split; [exact posts3_carry_slugs|].
  destruct (createPages_one_entry_per_node sample_resolve
              (contentSource posts3) posts3 [] eq_refl posts3_carry_slugs)
    as (ps & Hrun & Hlen & _).
  exists ps. exact (conj Hrun Hlen).
Defined.

Lemma createPages_missing_slug_witness :
  contentSource [postC; fieldless; postA] blogQuery
  = Fulfilled (answer [postC; fieldless; postA])
  ∧ ∃ ps,
      createPages sample_resolve (contentSource [postC; fieldless; postA]) []
      = (Abrupt (TypeError "slug"), [] ++ ps)
      ∧ length ps = 1%nat.
Proof.
  split; [reflexivity|].
  destruct (createPages_missing_slug sample_resolve
              (contentSource [postC; fieldless; postA])
              [postC; fieldless; postA] [] eq_refl) as [_ Hstop].
  destruct (Hstop [postC] fieldless [postA] eq_refl) as (ps & Hrun & Hlen & _).
  - constructor; [by eexists|constructor].
  - reflexivity.
  - exists ps. exact (conj Hrun Hlen).
Defined.

Lemma createPages_query_errors_witness :
  failingQuery blogQuery
  = Fulfilled {| errors := Some ["Unknown field `slug`"]; data := None |}
  ∧ createPages sample_resolve failingQuery [planEntry "t" [postA] 0 postA]
    = (Abrupt (QueryErrors ["Unknown field `slug`"]),
       [planEntry "t" [postA] 0 postA]).
Proof.
  split; [reflexivity|].
  apply (createPages_query_errors sample_resolve failingQuery
           {| errors := Some ["Unknown field `slug`"]; data := None |});
    reflexivity.
Defined.

Lemma neighbour_lookups_total_witness :
  contentSource [postA] blogQuery = Fulfilled (answer [postA])
  ∧ hasFields postA
  ∧ ∃ e, createPages sample_resolve (contentSource [postA]) []
         = (Normal tt, [] ++ [e])
         ∧ previous (context e) = None
         ∧ next (context e) = None.
Proof.
  assert (hasFields postA) as HA by (by eexists).
  split; [reflexivity|]. split; [exact HA|].
  destruct (neighbour_lookups_total sample_resolve (contentSource [postA])
              [postA] [] eq_refl) as (_ & _ & Hone & _).
  exact (Hone postA eq_refl HA).
Defined.

Lemma createPages_first_thousand_witness :
  contentSource (numbered 1500) blogQuery
  = Fulfilled (answer (take (limit blogQuery) (numbered 1500)))
  ∧ Forall hasFields (numbered 1500)
  ∧ ∃ ps,
      createPages sample_resolve (contentSource (numbered 1500)) []
      = (Normal tt, [] ++ ps)
      ∧ length ps = 1000%nat.
Proof.
  split; [reflexivity|]. split; [exact (numbered_hasFields 1500)|].
  destruct (createPages_first_thousand sample_resolve
              (contentSource (numbered 1500)) (numbered 1500) []
              eq_refl (numbered_hasFields 1500))
    as (_ & ps & Hrun & _ & _ & Hlen & _).
  exists ps. split; [exact Hrun|].
  apply Hlen. rewrite numbered_length. lia.
Defined.

Lemma onCreateNode_other_kind_witness :
  type (internal fileNode) ≠ "MarkdownRemark"
  ∧ onCreateNode _ setNodeField sample_createFilePath fileNode
      sample_getNode {[ "md-1" := {[ "slug" := "/md-1/" ]} ]}
    = (Normal tt, {[ "md-1" := {[ "slug" := "/md-1/" ]} ]}).
Proof.
  assert (type (internal fileNode) ≠ "MarkdownRemark") as Hty by done.
  split; [exact Hty|].
  exact (proj1 (onCreateNode_other_kind _ setNodeField sample_createFilePath
                  fileNode sample_getNode _ Hty)).
Defined.

(** * Where the code departs from the specification *)

(** C2 refuted.  The answer [[slugless]] holds a node whose derived-fields
    object has no slug, yet the pass completes and registers a page for it,
    with no route path.  And where the pass does fail, on a node with no
    derived-fields object, the page of the node before it has been
    registered by then. *)
Lemma createPages_missing_slug_counterexample :
  (slugless ∈ [slugless]
   ∧ slugOf slugless = None
   ∧ createPages sample_resolve (contentSource [slugless]) []
     = (Normal tt,
        [ {| path := None; component := blogPost sample_resolve;
             context := {| slug := None; previous := None;
                           next := None |} |} ]))
  ∧ (fieldless ∈ [postC; fieldless]
     ∧ slugOf fieldless = None
     ∧ createPages sample_resolve (contentSource [postC; fieldless]) []
       = (Abrupt (TypeError "slug"),
          [ {| path := Some "/c/"; component := blogPost sample_resolve;
               context := {| slug := Some "/c/";
                             previous := Some (node fieldless);
                             next := None |} |} ])).
Proof.
  split; (split; [set_solver|]); split; reflexivity.
Qed.

(** C10 refuted.  The answer [[fieldless]] is a single-element input, yet
    the pass raises an error and issues no entry: the slug read on the node
    throws, the neighbour lookups before it having yielded nothing. *)
Lemma neighbour_lookups_counterexample :
  node_of (or_empty (index [fieldless] (0 - 1))) = None
  ∧ node_of (or_empty (index [fieldless] (0 + 1))) = None
  ∧ createPages sample_resolve (contentSource [fieldless]) []
    = (Abrupt (TypeError "slug"), []).
Proof. repeat split. Qed.

(** C5 refuted.  The pass has no input through which a bound could be set:
    the limit it sends is the 1000 of the query text.  With 1500 nodes in
    the content source and a bound of 500 wanted, the pass still considers
    1000 nodes. *)
Lemma createPages_bound_counterexample :
  let content := numbered 1500 in
  let bound := 500%nat in
  (bound < length content)%nat
  ∧ limit blogQuery = 1000%nat
  ∧ length (createPages sample_resolve (contentSource content) []).2
    = 1000%nat
  ∧ length (createPages sample_resolve (contentSource content) []).2
    ≠ bound.
Proof.
  assert (length (createPages sample_resolve
                    (contentSource (numbered 1500)) []).2 = 1000%nat) as Hlen.
  { rewrite (createPages_capped _ _ (numbered 1500) _ eq_refl
               (numbered_hasFields 1500)).
    cbn [snd app]. unfold pagePlan.
    rewrite length_imap, length_take, numbered_length. lia. }
  cbv zeta. rewrite numbered_length, Hlen.
  split; [lia|]. split; [reflexivity|]. split; [reflexivity|lia].
Qed.

(** * Further properties of the page pass *)

Section PlannerFurther.

Variable path_resolve : string → string.

Abbreviation template := (blogPost path_resolve).
Abbreviation createPages := (createPages path_resolve).

Lemma pagePlan_paths posts :
  path <$> pagePlan template posts = slugOf <$> posts.
Proof.
  unfold pagePlan. rewrite fmap_imap, <- imap_const.
  by apply imap_ext.
Qed.

Lemma pagePlan_lookup posts i :
  pagePlan template posts !! i = planEntry template posts i <$> posts !! i.
Proof. unfold pagePlan. by rewrite list_lookup_imap. Qed.

Lemma pagePlan_length posts :
  length (pagePlan template posts) = length posts.
Proof. unfold pagePlan. by rewrite length_imap. Qed.

(** X1: the routes of a completed pass are the slugs of the nodes, in the
    order of the nodes; nothing is merged or dropped, so the routes are
    pairwise distinct exactly when the slugs are. *)
Theorem createPages_routes graphql posts reg :
  graphql blogQuery = Fulfilled (answer posts) →
  Forall hasFields posts →
  ∃ ps,
    createPages graphql reg = (Normal tt, reg ++ ps)
    ∧ path <$> ps = slugOf <$> posts
    ∧ (NoDup (path <$> ps) ↔ NoDup (slugOf <$> posts)).
Proof.
  intros Hq Hall. exists (pagePlan template posts).
  split; [by apply createPages_good|].
  by rewrite pagePlan_paths.
Qed.

(** X2: an entry depends on three positions of the answer only.  When two
    answers hold the same node at position [i] and agree on the positions
    before and after it, whatever entries the two passes issue at [i] are
    one and the same entry; and both passes issue it when, in each answer,
    the nodes up to [i] have their derived-fields object. *)
Theorem createPages_entry_local g1 g2 posts1 posts2 reg1 reg2 i :
  g1 blogQuery = Fulfilled (answer posts1) →
  g2 blogQuery = Fulfilled (answer posts2) →
  posts1 !! i = posts2 !! i →
  posts1 !! S i = posts2 !! S i →
  (∀ j, i = S j → posts1 !! j = posts2 !! j) →
  ∃ out1 ps1 out2 ps2,
    createPages g1 reg1 = (out1, reg1 ++ ps1)
    ∧ createPages g2 reg2 = (out2, reg2 ++ ps2)
    ∧ (∀ e1 e2, ps1 !! i = Some e1 → ps2 !! i = Some e2 → e1 = e2)
    ∧ (is_Some (posts1 !! i) →
       Forall hasFields (take (S i) posts1) →
       Forall hasFields (take (S i) posts2) →
       ∃ e, ps1 !! i = Some e ∧ ps2 !! i = Some e).
Proof.
  intros Hq1 Hq2 Hsame Hafter Hbefore.
  destruct (createPages_prefix path_resolve _ _ Hq1)
    as (out1 & k1 & Hrun1 & _ & _ & Hcov1 & _).
  destruct (createPages_prefix path_resolve _ _ Hq2)
    as (out2 & k2 & Hrun2 & _ & _ & Hcov2 & _).
  exists out1, (take k1 (pagePlan template posts1)),
    out2, (take k2 (pagePlan template posts2)).
  split; [apply Hrun1|]. split; [apply Hrun2|].
  assert (∀ post, planEntry template posts1 i post
                  = planEntry template posts2 i post) as Hentry.
  { intros post. unfold planEntry. rewrite Hafter.
    destruct i as [|j]; [done|]. by rewrite (Hbefore j eq_refl). }
  split.
  - intros e1 e2 H1 H2.
    apply plan_prefix_lookup in H1 as (p1 & Hp1 & _ & ->).
    apply plan_prefix_lookup in H2 as (p2 & Hp2 & _ & ->).
    rewrite Hsame, Hp2 in Hp1. injection Hp1 as <-. apply Hentry.
  - intros [post Hpost] Hpre1 Hpre2.
    exists (planEntry template posts1 i post).
    rewrite !lookup_take_lt, !pagePlan_lookup.
    + rewrite <- Hsame, Hpost. simpl. by rewrite Hentry.
    + apply Hcov2; [|done]. rewrite Hsame in Hpost.
      by eapply lookup_lt_Some.
    + apply Hcov1; [|done]. by eapply lookup_lt_Some.
Qed.

Lemma shifted_plan_head new posts :
  imap (planEntry template (new :: posts) ∘ S) posts !! 0%nat
  = withNext (Some (node new)) <$> pagePlan template posts !! 0%nat.
Proof.
  rewrite list_lookup_imap, pagePlan_lookup. by destruct posts.
Qed.

Lemma shifted_plan_tail new posts i :
  imap (planEntry template (new :: posts) ∘ S) posts !! S i
  = pagePlan template posts !! S i.
Proof.
  rewrite list_lookup_imap, pagePlan_lookup. by destruct (posts !! S i).
Qed.

Lemma take_lookup_agree {A} (l1 l2 : list A) k i :
  l1 !! i = l2 !! i → take k l1 !! i = take k l2 !! i.
Proof.
  intros Hagree. destruct (decide (i < k)%nat).
  - by rewrite !lookup_take_lt.
  - by rewrite !lookup_take_ge by lia.
Qed.

(** X3: a new post, with its derived-fields object, at the head of the
    answer.  The pass over the longer answer ends as the pass over the
    shorter one does and issues one entry more: the new post comes first,
    without next and with the former head as previous; the entry of the
    former head, where there is one, is as before but for its next, which
    is now the new post; every other entry is as before, one position
    later. *)
Theorem createPages_new_post g g' new posts reg :
  g blogQuery = Fulfilled (answer posts) →
  g' blogQuery = Fulfilled (answer (new :: posts)) →
  hasFields new →
  ∃ out ps e' ps',
    createPages g reg = (out, reg ++ ps)
    ∧ createPages g' reg = (out, reg ++ e' :: ps')
    ∧ path e' = slugOf new
    ∧ next (context e') = None
    ∧ previous (context e') = node <$> head posts
    ∧ length ps' = length ps
    ∧ ps' !! 0%nat = withNext (Some (node new)) <$> ps !! 0%nat
    ∧ ∀ i, ps' !! S i = ps !! S i.
Proof.
  intros Hq Hq' Hnew.
  assert (∃ out k,
            createPages g reg
            = (out, reg ++ take k (pagePlan template posts))
            ∧ createPages g' reg
              = (out, reg ++ planEntry template (new :: posts) 0 new
                        :: take k (imap (planEntry template (new :: posts)
                                           ∘ S) posts)))
    as (out & k & Hrun & Hrun').
  { destruct (first_fieldless posts)
      as [Hall|(good & bad & tail & Hsplit & Hgood & Hbad)].
    - exists (Normal tt), (length posts).
      rewrite (createPages_good _ _ _ _ Hq Hall).
      rewrite (createPages_good _ _ _ _ Hq'); [|by constructor].
      rewrite !take_ge; [done| |].
      + by rewrite length_imap.
      + by rewrite pagePlan_length.
    - exists (Abrupt (TypeError "slug")), (length good). subst posts.
      rewrite (createPages_bad _ _ _ _ _ _ Hq Hgood Hbad).
      rewrite (createPages_bad _ _ (new :: good) bad tail _ Hq');
        [done|by constructor|done]. }
  exists out, (take k (pagePlan template posts)),
    (planEntry template (new :: posts) 0 new),
    (take k (imap (planEntry template (new :: posts) ∘ S) posts)).
  split; [done|]. split; [done|]. split; [done|]. split; [done|].
  split; [simpl; by destruct posts|].
  split; [by rewrite !length_take, length_imap, pagePlan_length|].
  split.
  - destruct (decide (0 < k)%nat).
    + rewrite !lookup_take_lt by done. apply shifted_plan_head.
    + by rewrite !lookup_take_ge by lia.
  - intros i. apply take_lookup_agree, shifted_plan_tail.
Qed.

(** X4: the pass over the reversed answer, for an answer whose nodes all
    have their derived-fields object.  It issues the entries of the
    original answer in reverse order, each with the same route and with
    previous and next exchanged. *)
Theorem createPages_reversed g g' posts reg :
  g blogQuery = Fulfilled (answer posts) →
  g' blogQuery = Fulfilled (answer (reverse posts)) →
  Forall hasFields posts →
  ∃ ps,
    createPages g reg = (Normal tt, reg ++ ps)
    ∧ createPages g' reg = (Normal tt, reg ++ reverse (swapLinks <$> ps)).
Proof.
  intros Hq Hq' Hall. exists (pagePlan template posts).
  split; [by apply createPages_good|].
  rewrite (createPages_good _ _ _ _ Hq'); [|by apply Forall_reverse].
  do 2 f_equal. apply list_eq. intros j.
  pose proof (pagePlan_length posts) as Hlen.
  destruct (decide (j < length posts)%nat) as [Hj|Hj].
  - rewrite reverse_lookup; [|by rewrite length_fmap, Hlen].
    rewrite length_fmap, Hlen, list_lookup_fmap, !pagePlan_lookup.
    rewrite reverse_lookup by done.
    destruct (lookup_lt_is_Some_2 posts (length posts - S j)) as [post Hpost];
      [lia|].
    rewrite Hpost. simpl. f_equal. unfold planEntry, swapLinks. simpl.
    f_equal. f_equal.
    + destruct (decide (S j < length posts)%nat) as [Hlt|Hge].
      * rewrite reverse_lookup by done.
        destruct (length posts - S j)%nat as [|k] eqn:Hk; [lia|].
        do 2 f_equal. lia.
      * rewrite (lookup_ge_None_2 (reverse posts));
          [|rewrite length_reverse; lia].
        by replace (length posts - S j)%nat with 0%nat by lia.
    + destruct j as [|j'].
      * rewrite (lookup_ge_None_2 posts); [done|]. lia.
      * rewrite reverse_lookup by lia. do 2 f_equal. lia.
  - rewrite !lookup_ge_None_2; [done| |].
    + rewrite length_reverse, length_fmap, Hlen. lia.
    + rewrite pagePlan_length, length_reverse. lia.
Qed.

(** X5: pages come from clean answers only.  Whenever a pass leaves the
    registry other than it found it, the query had been fulfilled, the
    answer reported no errors and carried its connection, and the first
    edge had a derived-fields object. *)
Theorem createPages_registers_from_data graphql reg out reg' :
  createPages graphql reg = (out, reg') →
  reg' ≠ reg →
  ∃ first rest,
    graphql blogQuery = Fulfilled (answer (first :: rest))
    ∧ hasFields first.
Proof.
  intros Hrun Hchanged.
  assert (∃ posts, graphql blogQuery = Fulfilled (answer posts))
    as [posts Hq].
  { destruct (graphql blogQuery) as [result|e] eqn:Hq.
    2:{ rewrite (createPages_query_rejected _ _ _ _ Hq) in Hrun.
        by inversion Hrun. }
    destruct (errors result) as [errs|] eqn:Herr.
    { unfold createPages in Hrun. rewrite Hq in Hrun. simpl in Hrun.
      rewrite (onResult_errors _ _ _ _ Herr) in Hrun. by inversion Hrun. }
    unfold createPages, onResult in Hrun. rewrite Hq in Hrun. simpl in Hrun.
    rewrite Herr in Hrun.
    destruct (data result) as [d|] eqn:Hd; [|by inversion Hrun].
    unfold get, mbind, build_bind in Hrun. simpl in Hrun.
    destruct (allMarkdownRemark d) as [c|] eqn:Hc; [|by inversion Hrun].
    exists (edges c). f_equal. by apply answer_of_result with d. }
  destruct (createPages_prefix path_resolve _ _ Hq) as (out0 & k & Hrun0 & _ & Hpre & _).
  rewrite Hrun0 in Hrun. inversion Hrun; subst. clear Hrun.
  destruct posts as [|first rest].
  { exfalso. apply Hchanged. unfold pagePlan. simpl.
    by rewrite take_nil, app_nil_r. }
  destruct k as [|k'].
  { exfalso. apply Hchanged. by rewrite take_0, app_nil_r. }
  exists first, rest. split; [done|].
  by inversion Hpre.
Qed.

End PlannerFurther.

(** * The slug deriver over a build *)

Section SlugDeriverFurther.

Variable createFilePath :
  SourceNode → (string → option SourceNode) → Completion string.
Variable getNode : string → option SourceNode.

(** X6: over the nodes of a build, when [createFilePath] returns a path for
    every markdown node among them, the run completes and the hook has
    derived exactly one field per markdown node and none for any other
    node: the [createNodeField] calls are, in the order of the nodes, one
    call per markdown node, each naming the field [slug], the node itself
    and the path [createFilePath] returned for it.  For a markdown node on
    which [createFilePath] throws, the hook throws the same and makes no
    call. *)
Theorem onCreateNodes_calls (paths : SourceNode → string) nodes calls :
  (∀ n, n ∈ nodes → type (internal n) = "MarkdownRemark" →
        createFilePath n getNode = Normal (paths n)) →
  onCreateNodes (list NodeField) recordField createFilePath getNode
    nodes calls
  = (Normal tt,
     calls ++
     ((λ n, {| name := "slug"; field_node := n; value := paths n |})
        <$> filter (λ n, type (internal n) = "MarkdownRemark") nodes))
  ∧ ∀ n e,
      type (internal n) = "MarkdownRemark" →
      createFilePath n getNode = Abrupt e →
      onCreateNode (list NodeField) recordField createFilePath n getNode
        calls
      = (Abrupt e, calls).
Proof.
  intros Hpaths. split; [|by intros n e; apply onCreateNode_throws].
  revert calls Hpaths.
  induction nodes as [|n nodes IH]; intros calls Hpaths; simpl.
  - by rewrite app_nil_r.
  - rewrite filter_cons.
    assert (∀ m, m ∈ nodes → type (internal m) = "MarkdownRemark" →
                 createFilePath m getNode = Normal (paths m)) as Hrest.
    { intros m Hm. apply Hpaths. by right. }
    destruct (decide (type (internal n) = "MarkdownRemark")) as [He|Hne].
    + rewrite (onCreateNode_markdown _ _ _ _ _ _ (paths n) He);
        [|apply Hpaths; [by left|done]].
      rewrite (IH _ Hrest). unfold recordField. simpl.
      by rewrite <- app_assoc.
    + rewrite (onCreateNode_skips _ _ _ _ _ _ Hne).
      by rewrite (IH _ Hrest).
Qed.

End SlugDeriverFurther.

(** * The index page *)

Section IndexProperties.

Import Index.

Variable inherited : JsValue → string → JsValue.

Abbreviation read := (read inherited).
Abbreviation get := (Index.get inherited).
Abbreviation member := (member inherited).
Abbreviation renderPost := (renderPost inherited).
Abbreviation render := (render inherited).

Lemma split_nonempty sep s : split sep s ≠ [].
Proof.
  destruct s as [|c rest]; simpl; [done|].
  destruct (decide (c = sep)); [done|]. by destruct (split sep rest).
Qed.

Lemma split_app sep p q :
  split sep (p +:+ String sep q) = split sep p ++ split sep q.
Proof.
  induction p as [|c p IH]; simpl.
  - by rewrite decide_True.
  - destruct (decide (c = sep)) as [->|Hc]; [by rewrite IH|].
    rewrite IH.
    destruct (split sep p) as [|piece pieces] eqn:Hp; [|done].
    by destruct (split_nonempty sep p).
Qed.

Lemma split_plain sep k :
  (∀ p q, k ≠ p +:+ String sep q) → split sep k = [k].
Proof.
  induction k as [|c k IH]; intros Hplain; simpl; [done|].
  destruct (decide (c = sep)) as [->|Hc].
  - by destruct (Hplain "" k).
  - rewrite IH; [done|].
    intros p q ->. by destruct (Hplain (String c p) q).
Qed.

Lemma walk_nullish (o : JsValue) keys :
  nullish o = true →
  foldl (λ o k, if nullish o then o else read o k) o keys = o.
Proof.
  intros Ho. induction keys as [|k keys IH]; simpl; [done|].
  by rewrite Ho.
Qed.

(** X7: once the walk meets null or undefined it stays there.  From a base
    that is null or undefined, [get] returns the base itself for every
    path, null as null and undefined as undefined. *)
Theorem get_nullish base path :
  nullish base = true → get base path = base.
Proof. intros Hb. unfold Index.get. by apply walk_nullish. Qed.

(** X8: [get] along a path with a dot is [get] along the part before the
    dot followed by [get] along the part after it. *)
Theorem get_compose base p q :
  get base (p +:+ "." +:+ q) = get (get base p) q.
Proof.
  unfold Index.get.
  change (p +:+ "." +:+ q) with (p +:+ String "."%char q).
  by rewrite split_app, foldl_app.
Qed.

(** X9: a path without a dot is one property name.  [get] reads that one
    property of a base that is neither null nor undefined; this holds for
    the empty path too, which reads the property named by the empty string
    and does not return the base. *)
Theorem get_plain base k :
  (∀ p q, k ≠ p +:+ "." +:+ q) →
  get base k = if nullish base then base else read base k.
Proof.
  intros Hplain. unfold Index.get. by rewrite split_plain.
Qed.

Lemma member_ok o k :
  nullish o = false → member o k = Normal (read o k).
Proof. intros Ho. unfold Index.member. by rewrite Ho. Qed.

Lemma member_nullish o k :
  nullish o = true → member o k = Abrupt (TypeError k).
Proof. intros Ho. unfold Index.member. by rewrite Ho. Qed.

Lemma fieldsSlug_ok node :
  nullish node = false →
  nullish (read node "fields") = false →
  fieldsSlug inherited node = Normal (read (read node "fields") "slug").
Proof.
  intros Hn Hf. unfold fieldsSlug, mbind, completion_bind.
  by rewrite (member_ok _ _ Hn), (member_ok _ _ Hf).
Qed.

Lemma fieldsSlug_no_fields node :
  nullish node = false →
  nullish (read node "fields") = true →
  fieldsSlug inherited node = Abrupt (TypeError "slug").
Proof.
  intros Hn Hf. unfold fieldsSlug, mbind, completion_bind.
  by rewrite (member_ok _ _ Hn), (member_nullish _ _ Hf).
Qed.

Lemma get_frontmatter_title node :
  nullish node = false →
  get node "frontmatter.title"
  = if nullish (read node "frontmatter") then read node "frontmatter"
    else read (read node "frontmatter") "title".
Proof. intros Hn. unfold Index.get. simpl. by rewrite Hn. Qed.

Lemma renderPost_title edge :
  wellFormed inherited edge →
  get (read edge "node") "frontmatter.title" = titleValue inherited edge.
Proof.
  intros (_ & Hnode & _ & Hfm).
  rewrite get_frontmatter_title by done. unfold titleValue.
  by rewrite Hfm.
Qed.

Lemma renderPost_ok edge :
  wellFormed inherited edge →
  renderPost edge = Normal (shown inherited edge).
Proof.
  intros Hwf. pose proof (renderPost_title edge Hwf) as Htitle.
  destruct Hwf as (Hedge & Hnode & Hfields & Hfm).
  unfold Index.renderPost, Index.or_else, shown, slugValue, mbind,
    completion_bind.
  rewrite (member_ok _ _ Hedge), Htitle, (fieldsSlug_ok _ Hnode Hfields).
  rewrite !(member_ok _ _ Hnode), (member_ok _ _ Hfm).
  by destruct (truthy (titleValue inherited edge)).
Qed.

(** X10: what the page shows for a well-formed edge.  The callback
    completes; key and link target of the item are the slug of the node;
    the title is the title of the frontmatter when that is truthy, and the
    slug when the title is null, undefined or the empty string. *)
Theorem renderPost_shown edge :
  wellFormed inherited edge →
  ∃ item,
    renderPost edge = Normal item
    ∧ key item = slugValue inherited edge
    ∧ to item = slugValue inherited edge
    ∧ (truthy (titleValue inherited edge) = true →
         title item = titleValue inherited edge)
    ∧ (nullish (titleValue inherited edge) = true
       ∨ titleValue inherited edge = JString "" →
         title item = slugValue inherited edge).
Proof.
  intros Hwf. exists (shown inherited edge).
  split; [by apply renderPost_ok|]. split; [done|]. split; [done|].
  unfold shown. simpl. split.
  - by intros ->.
  - intros [Hnull| ->]; [|done].
    by destruct (titleValue inherited edge).
Qed.

(** X11: the title is read through [get], the date is not.  For a node with
    its fields but with a frontmatter that is null or undefined the callback
    throws the type error of reading [date]. *)
Theorem renderPost_no_frontmatter edge :
  nullish edge = false →
  nullish (read edge "node") = false →
  nullish (read (read edge "node") "fields") = false →
  nullish (read (read edge "node") "frontmatter") = true →
  renderPost edge = Abrupt (TypeError "date").
Proof.
  intros Hedge Hnode Hfields Hfm.
  unfold Index.renderPost, Index.or_else, mbind, completion_bind.
  rewrite (member_ok _ _ Hedge), (get_frontmatter_title _ Hnode), Hfm.
  assert (truthy (read (read edge "node") "frontmatter") = false) as ->.
  { by destruct (read (read edge "node") "frontmatter"). }
  rewrite (fieldsSlug_ok _ Hnode Hfields), (member_ok _ _ Hnode).
  by rewrite (member_nullish _ _ Hfm).
Qed.

(** X12: a node without fields cannot be shown, whatever its title.  When
    the fields of the node are null or undefined the callback throws the
    type error of reading [slug]. *)
Theorem renderPost_no_fields edge :
  nullish edge = false →
  nullish (read edge "node") = false →
  nullish (read (read edge "node") "fields") = true →
  renderPost edge = Abrupt (TypeError "slug").
Proof.
  intros Hedge Hnode Hfields.
  unfold Index.renderPost, Index.or_else, mbind, completion_bind.
  rewrite (member_ok _ _ Hedge), (fieldsSlug_no_fields _ Hnode Hfields).
  by destruct (truthy _).
Qed.

Lemma renderPost_Normal edge item :
  renderPost edge = Normal item → wellFormed inherited edge.
Proof.
  intros Hrun.
  destruct (nullish edge) eqn:Hedge.
  { unfold Index.renderPost, mbind, completion_bind in Hrun.
    by rewrite (member_nullish _ _ Hedge) in Hrun. }
  destruct (nullish (read edge "node")) eqn:Hnode.
  { unfold Index.renderPost, Index.fieldsSlug, Index.or_else,
      mbind, completion_bind in Hrun.
    rewrite (member_ok _ _ Hedge), (member_nullish _ _ Hnode) in Hrun.
    by destruct (truthy _). }
  destruct (nullish (read (read edge "node") "fields")) eqn:Hfields.
  { unfold Index.renderPost, Index.or_else, mbind, completion_bind in Hrun.
    rewrite (member_ok _ _ Hedge), (fieldsSlug_no_fields _ Hnode Hfields)
      in Hrun.
    by destruct (truthy _). }
  destruct (nullish (read (read edge "node") "frontmatter")) eqn:Hfm.
  { unfold Index.renderPost, Index.or_else, mbind, completion_bind in Hrun.
    rewrite (member_ok _ _ Hedge), (fieldsSlug_ok _ Hnode Hfields),
      !(member_ok _ _ Hnode), (member_nullish _ _ Hfm) in Hrun.
    by destruct (if truthy _ then _ else _). }
  done.
Qed.

Lemma mapArray_renderPost es :
  Forall (wellFormed inherited) es →
  mapArray renderPost es = Normal (shown inherited <$> es).
Proof.
  induction 1 as [|edge es Hedge _ IH]; simpl; [done|].
  unfold mbind, completion_bind.
  by rewrite (renderPost_ok _ Hedge), IH.
Qed.

Lemma mapArray_Normal es items :
  mapArray renderPost es = Normal items → Forall (wellFormed inherited) es.
Proof.
  revert items. induction es as [|edge es IH]; intros items Hrun; [done|].
  simpl in Hrun. unfold mbind, completion_bind in Hrun.
  destruct (renderPost edge) as [item|] eqn:Hedge; [|done].
  destruct (mapArray renderPost es) as [rest|] eqn:Hrest; [|done].
  constructor; [by eapply renderPost_Normal|by eapply IH].
Qed.

Lemma render_array this es :
  get this "props.data.allMarkdownRemark.edges" = JArray es →
  Forall (wellFormed inherited) es →
  render this
  = Normal {| helmetTitle := get this "props.data.site.siteMetadata.title";
              items := shown inherited <$> es |}.
Proof.
  intros Hposts Hall. unfold Index.render.
  by rewrite Hposts, mapArray_renderPost.
Qed.

(** X13: the page over an array of edges.  It can be rendered exactly when
    every edge is well-formed, and then it shows one item per edge, in the
    order of the edges, under the title of the site. *)
Theorem render_edges this es :
  get this "props.data.allMarkdownRemark.edges" = JArray es →
  (Forall (wellFormed inherited) es →
     render this
     = Normal {| helmetTitle := get this "props.data.site.siteMetadata.title";
                 items := shown inherited <$> es |})
  ∧ (∀ view, render this = Normal view → Forall (wellFormed inherited) es).
Proof.
  intros Hposts. split; [by apply render_array|].
  unfold Index.render. rewrite Hposts.
  intros view Hrun. unfold mbind, completion_bind in Hrun.
  destruct (mapArray renderPost es) as [items|] eqn:Hmap; [|done].
  by eapply mapArray_Normal.
Qed.

(** X14: the guarded read of the edges does not guard the call of [map].
    When the data of the page is null or undefined, or anything on the way
    from the data to the edges is, the page throws a type error in place of
    showing an empty list. *)
Theorem render_no_data this :
  nullish (get this "props.data") = true
  ∨ nullish (get this "props.data.allMarkdownRemark") = true
  ∨ nullish (get this "props.data.allMarkdownRemark.edges") = true →
  render this = Abrupt (TypeError "map").
Proof.
  intros Hcases.
  assert (nullish (get this "props.data.allMarkdownRemark.edges") = true)
    as Hposts.
  { destruct Hcases as [Hd|[Hc|He]]; [| |done].
    - change "props.data.allMarkdownRemark.edges"
        with ("props.data" +:+ String "."%char "allMarkdownRemark.edges").
      unfold Index.get in *.
      by rewrite split_app, foldl_app, (walk_nullish _ _ Hd).
    - change "props.data.allMarkdownRemark.edges"
        with ("props.data.allMarkdownRemark" +:+ String "."%char "edges").
      unfold Index.get in *.
      by rewrite split_app, foldl_app, (walk_nullish _ _ Hc). }
  unfold Index.render.
  by destruct (get this "props.data.allMarkdownRemark.edges").
Qed.

End IndexProperties.

(** * The index page and the page pass together *)

Section IndexAndPages.

Import Index.

Variable path_resolve : string → string.
Variable inherited : JsValue → string → JsValue.





End IndexAndPages.

(** * The angle *)

Section AngleProperties.

Import Angles.

Lemma wrapping_add_u16 a b : u16 (wrapping_add a b).
Proof. unfold u16, wrapping_add. apply Z.mod_pos_bound. lia. Qed.

(** X16: addition of angles never leaves the sixteen bits, whatever the two
    summands; it is commutative and associative, and the angle zero is its
    unit on the angles that are in range. *)
Theorem add_laws (a b c : Angle) :
  wf (add a b)
  ∧ add a b = add b a
  ∧ add (add a b) c = add a (add b c)
  ∧ (wf a → add a (mkAngle 0) = a ∧ add (mkAngle 0) a = a).
Proof.
  split; [apply wrapping_add_u16|]. split; [|split].
  - unfold add, wrapping_add. by rewrite Z.add_comm.
  - unfold add, wrapping_add. simpl. f_equal.
    by rewrite Zplus_mod_idemp_l, Zplus_mod_idemp_r, Z.add_assoc.
  - intros Ha. destruct a as [v]. unfold wf, u16 in Ha. simpl in Ha.
    unfold add, wrapping_add. cbn [value].
    rewrite Z.add_0_r, Z.add_0_l, Z.mod_small by lia. done.
Qed.

(** X17: a full turn changes nothing.  Two steps that add up to 65536, the
    65535 and the 1 of the post among them, take every angle in range back
    to itself. *)
Theorem add_full_turn (x : Angle) (s t : Z) :
  wf x →
  u16 s →
  u16 t →
  (s + t = 65536)%Z →
  add (add x (mkAngle s)) (mkAngle t) = x.
Proof.
  intros Hx Hs Ht Hturn. destruct x as [v]. unfold wf, u16 in *.
  simpl in Hx. unfold add, wrapping_add. simpl. f_equal.
  rewrite Zplus_mod_idemp_l.
  replace (v + s + t)%Z with (v + 1 * 65536)%Z by lia.
  rewrite Z_mod_plus_full. apply Z.mod_small. lia.
Qed.

End AngleProperties.

(** * The further theorems at concrete inputs *)

Lemma posts3_have_fields : Forall hasFields posts3.
Proof. repeat (constructor; [by eexists|]). constructor. Qed.

Lemma createPages_routes_witness :
  contentSource posts3 blogQuery = Fulfilled (answer posts3)
  ∧ Forall hasFields posts3
  ∧ ∃ ps,
      createPages sample_resolve (contentSource posts3) []
      = (Normal tt, [] ++ ps)
      ∧ path <$> ps = slugOf <$> posts3.
Proof.
  split; [reflexivity|]. split; [exact posts3_have_fields|].
  destruct (createPages_routes sample_resolve (contentSource posts3) posts3 []
              eq_refl posts3_have_fields) as (ps & Hrun & Hpaths & _).
  exists ps. exact (conj Hrun Hpaths).
Defined.

Lemma createPages_entry_local_witness :
  ∃ out1 ps1 out2 ps2,
    createPages sample_resolve (contentSource posts3) []
    = (out1, [] ++ ps1)
    ∧ createPages sample_resolve
        (contentSource [postC; postB; postA; fieldless]) []
      = (out2, [] ++ ps2)
    ∧ ∃ e, ps1 !! 1%nat = Some e ∧ ps2 !! 1%nat = Some e.
Proof.
  destruct (createPages_entry_local sample_resolve
              (contentSource posts3)
              (contentSource [postC; postB; postA; fieldless])
              posts3 [postC; postB; postA; fieldless] [] [] 1
              eq_refl eq_refl eq_refl eq_refl)
    as (out1 & ps1 & out2 & ps2 & Hrun1 & Hrun2 & _ & Hboth).
  - intros j [= <-]. reflexivity.
  - exists out1, ps1, out2, ps2. split; [exact Hrun1|].
    split; [exact Hrun2|]. apply Hboth.
    + by eexists.
    + repeat (constructor; [by eexists|]). constructor.
    + repeat (constructor; [by eexists|]). constructor.
Defined.

Lemma createPages_new_post_witness :
  hasFields postC
  ∧ ∃ out ps e' ps',
      createPages sample_resolve (contentSource [postB; fieldless]) []
      = (out, [] ++ ps)
      ∧ createPages sample_resolve
          (contentSource [postC; postB; fieldless]) []
        = (out, [] ++ e' :: ps')
      ∧ ps' !! 0%nat = withNext (Some (node postC)) <$> ps !! 0%nat.
Proof.
  assert (hasFields postC) as HC by (by eexists).
  split; [exact HC|].
  destruct (createPages_new_post sample_resolve
              (contentSource [postB; fieldless])
              (contentSource [postC; postB; fieldless])
              postC [postB; fieldless] [] eq_refl eq_refl HC)
    as (out & ps & e' & ps' & Hold & Hnew & _ & _ & _ & _ & Hhead & _).
  exists out, ps, e', ps'. exact (conj Hold (conj Hnew Hhead)).
Defined.

Lemma createPages_reversed_witness :
  ∃ ps,
    createPages sample_resolve (contentSource posts3) []
    = (Normal tt, [] ++ ps)
    ∧ createPages sample_resolve (contentSource (reverse posts3)) []
      = (Normal tt, [] ++ reverse (swapLinks <$> ps)).
Proof.
  exact (createPages_reversed sample_resolve (contentSource posts3)
           (contentSource (reverse posts3)) posts3 [] eq_refl eq_refl
           posts3_have_fields).
Defined.

Lemma createPages_registers_from_data_witness :
  ∃ first rest,
    contentSource [postA] blogQuery = Fulfilled (answer (first :: rest))
    ∧ hasFields first.
Proof.
  apply (createPages_registers_from_data sample_resolve
           (contentSource [postA]) [] (Normal tt)
           [planEntry (blogPost sample_resolve) [postA] 0 postA]).
  - reflexivity.
  - discriminate.
Defined.

Lemma onCreateNodes_calls_witness :
  onCreateNodes (list NodeField) recordField sample_createFilePath
    sample_getNode [fileNode; markdownNode; fileNode] []
  = (Normal tt,
     [ {| name := "slug"; field_node := markdownNode; value := "/md-1/" |} ])
  ∧ onCreateNode (list NodeField) recordField sample_createFilePath
      orphanNode sample_getNode []
    = (Abrupt (TypeError "relativePath"), []).
Proof.
  destruct (onCreateNodes_calls sample_createFilePath sample_getNode
              (λ n, "/" +:+ id n +:+ "/")
              [fileNode; markdownNode; fileNode] []) as [Hcalls Hthrows].
  - intros n Hin Hty.
    repeat (apply elem_of_cons in Hin as [->|Hin]; [by vm_compute|]).
    by apply elem_of_nil in Hin.
  - split; [exact Hcalls|].
    apply Hthrows; reflexivity.
Defined.

Section IndexExamples.

Import Index.

Abbreviation read0 := (read nothing_inherited).
Abbreviation get0 := (Index.get nothing_inherited).

(** The page over a post with a title and a post with an empty title. *)
Example render_two_posts :
  render nothing_inherited
    (sample_this [ sample_post "/c/" "C" "03 March, 2018";
                   sample_post "/b/" "" "02 February, 2018" ])
  = Normal
      {| helmetTitle := JString "Blog";
         items :=
           [ {| key := JString "/c/"; title := JString "C";
                to := JString "/c/"; date := JString "03 March, 2018";
                html := JString "..." |};
             {| key := JString "/b/"; title := JString "/b/";
                to := JString "/b/"; date := JString "02 February, 2018";
                html := JString "..." |} ] |}.
Proof. reflexivity. Qed.

Example get_keeps_null :
  get0 (JObject {[ "a" := JNull ]}) "a.b.c" = JNull
  ∧ get0 (JObject ∅) "a.b.c" = JUndefined.
Proof. split; reflexivity. Qed.

Lemma get_nullish_witness :
  nullish JNull = true ∧ get0 JNull "frontmatter.title" = JNull.
Proof.
  split; [reflexivity|].
  apply (get_nullish nothing_inherited JNull "frontmatter.title").
  reflexivity.
Defined.

Lemma empty_path_plain : ∀ p q, "" ≠ p +:+ "." +:+ q.
Proof. intros [|c p] q; discriminate. Qed.

Lemma get_plain_witness :
  get0 (JObject {[ "" := JString "unnamed" ]}) ""
  = if nullish (JObject {[ "" := JString "unnamed" ]})
    then JObject {[ "" := JString "unnamed" ]}
    else read0 (JObject {[ "" := JString "unnamed" ]}) "".
Proof.
  apply (get_plain nothing_inherited (JObject {[ "" := JString "unnamed" ]})
           "" empty_path_plain).
Defined.

Lemma sample_post_wellFormed s t d :
  wellFormed nothing_inherited (sample_post s t d).
Proof. repeat split. Qed.

Lemma renderPost_shown_witness :
  wellFormed nothing_inherited (sample_post "/b/" "" "02 February, 2018")
  ∧ ∃ item,
      renderPost nothing_inherited
        (sample_post "/b/" "" "02 February, 2018")
      = Normal item
      ∧ to item = JString "/b/"
      ∧ title item = JString "/b/".
Proof.
  split; [apply sample_post_wellFormed|].
  destruct (renderPost_shown nothing_inherited
              (sample_post "/b/" "" "02 February, 2018")
              (sample_post_wellFormed _ _ _))
    as (item & Hrun & _ & Hto & _ & Hempty).
  exists item. split; [exact Hrun|]. split; [exact Hto|].
  apply Hempty. right. reflexivity.
Defined.

Lemma renderPost_no_frontmatter_witness :
  renderPost nothing_inherited sample_no_frontmatter
  = Abrupt (TypeError "date").
Proof.
  apply (renderPost_no_frontmatter nothing_inherited sample_no_frontmatter);
    reflexivity.
Defined.

Lemma renderPost_no_fields_witness :
  renderPost nothing_inherited sample_no_fields = Abrupt (TypeError "slug").
Proof.
  apply (renderPost_no_fields nothing_inherited sample_no_fields);
    reflexivity.
Defined.

Lemma render_edges_witness :
  get0 (sample_this [sample_post "/c/" "C" "03 March, 2018"])
    "props.data.allMarkdownRemark.edges"
  = JArray [sample_post "/c/" "C" "03 March, 2018"]
  ∧ render nothing_inherited
      (sample_this [sample_post "/c/" "C" "03 March, 2018"])
    = Normal
        {| helmetTitle :=
             get0 (sample_this [sample_post "/c/" "C" "03 March, 2018"])
               "props.data.site.siteMetadata.title";
           items := shown nothing_inherited
                      <$> [sample_post "/c/" "C" "03 March, 2018"] |}.
Proof.
  split; [reflexivity|].
  apply (proj1 (render_edges nothing_inherited
                  (sample_this [sample_post "/c/" "C" "03 March, 2018"])
                  [sample_post "/c/" "C" "03 March, 2018"] eq_refl)).
  constructor; [apply sample_post_wellFormed|constructor].
Defined.

Lemma render_no_data_witness :
  nullish (get0 (JObject {[ "props" := JObject {[ "data" := JNull ]} ]})
             "props.data") = true
  ∧ render nothing_inherited
      (JObject {[ "props" := JObject {[ "data" := JNull ]} ]})
    = Abrupt (TypeError "map").
Proof.
  split; [reflexivity|].
  apply (render_no_data nothing_inherited). left. reflexivity.
Defined.







End IndexExamples.

Lemma add_laws_witness :
  Angles.wf (Angles.mkAngle 65535)
  ∧ Angles.add (Angles.mkAngle 65535) (Angles.mkAngle 0)
    = Angles.mkAngle 65535.
Proof.
  assert (Angles.wf (Angles.mkAngle 65535)) as Hwf.
  { unfold Angles.wf, Angles.u16. simpl. lia. }
  split; [exact Hwf|].
  destruct (add_laws (Angles.mkAngle 65535) (Angles.mkAngle 0)
              (Angles.mkAngle 0)) as (_ & _ & _ & Hunit).
  exact (proj1 (Hunit Hwf)).
Defined.

Lemma add_full_turn_witness :
  Angles.add (Angles.add (Angles.mkAngle 0) (Angles.mkAngle 65535))
    (Angles.mkAngle 1)
  = Angles.mkAngle 0.
Proof.
  apply (add_full_turn (Angles.mkAngle 0) 65535 1);
    unfold Angles.wf, Angles.u16; simpl; lia.
Defined.
